(** * Far::TopologyRefiner: the refinement driver and the feature-adaptive selector

    A shallow embedding of [opensubdiv/far/topologyRefiner.cpp].  The driver
    owns a vector of [Vtr::Level]s and a vector of [Vtr::Refinement]s; the
    Catmull-Clark selector marks the faces of a parent level that the next
    sparse refinement step has to isolate.

    Conventions of the embedding:
    - a C++ [int] is a [Z]; the one place that accumulates ([ptexID += ...])
      writes its 32-bit wrap-around out;
    - a [std::vector] is a [list], indexed with stdpp's lookup; an access the
      source performs without a bounds check is a fault ([OutOfBounds]) of the
      [outcome] monad when the index is outside the vector;
    - [assert] is modelled as checked ([AssertionFailed]);
    - the collaborators that live outside this translation unit (the scheme
      traits of Sdc, the refine step of Vtr) are the fields of two classes. *)

From stdpp Require Import base gmap list.

Local Open Scope Z_scope.

(** ** Faults and the outcome monad *)

Inductive Fault : Type :=
| OutOfBounds      (* unchecked vector access outside the vector *)
| AssertionFailed  (* a failed [assert] *)
| LengthError.     (* [vector::resize] to a negative (hence huge) size *)

Inductive outcome (A : Type) : Type :=
| Done (a : A)
| Abort (e : Fault).
Arguments Done {A} a.
Arguments Abort {A} e.

Global Instance outcome_ret : MRet outcome := λ A a, Done a.

Global Instance outcome_bind : MBind outcome := λ A B k m,
  match m with
  | Done a => k a
  | Abort e => Abort e
  end.

Definition assert (b : bool) : outcome unit :=
  if b then Done tt else Abort AssertionFailed.

(** [v[i]] for a vector [v] and an [int] index, unchecked in the source. *)
Definition at_index {A : Type} (v : list A) (i : Z) : outcome A :=
  if bool_decide (0 ≤ i) then
    match v !! Z.to_nat i with
    | Some a => Done a
    | None => Abort OutOfBounds
    end
  else Abort OutOfBounds.

(** [v.resize(n)] with [n] an [int]: a negative [n] converts to a size
    beyond [max_size]. *)
Definition vresize {A : Type} (dflt : A) (n : Z) (v : list A) : outcome (list A) :=
  if bool_decide (0 ≤ n) then Done (resize (Z.to_nat n) dflt v)
  else Abort LengthError.

(** ** 32-bit signed arithmetic *)

Definition INT_MAX : Z := 2147483647.

Definition wrap32 (z : Z) : Z := (z + 2 ^ 31) `mod` 2 ^ 32 - 2 ^ 31.

Definition add32 (a b : Z) : Z := wrap32 (a + b).

(** ** Sdc: scheme types and traits *)

Inductive SdcType : Type := TYPE_BILINEAR | TYPE_CATMARK | TYPE_LOOP.

Global Instance SdcType_eq_dec : EqDecision SdcType.
Proof. solve_decision. Defined.

(** [Sdc::Options] is a bundle of small bit fields that this file only
    stores and hands on. *)
Definition SdcOptions : Type := Z.

(** The constants of Sdc that the source reads:
    [Sdc::TypeTraits<T>::RegularFaceValence()] and the rule bits
    [Sdc::Crease::RULE_SMOOTH] and [Sdc::Crease::RULE_DART]. *)
Class SdcTraits : Type := {
  RegularFaceValence : SdcType → Z;
  RULE_SMOOTH : Z;
  RULE_DART : Z;
}.

(** ** Vtr: levels, tags, refinements, the sparse selector *)

Abbreviation Index := Z.

Record VTag : Type := mkVTag {
  _nonManifold : bool;
  _xordinary   : bool;
  _semiSharp   : bool;
  _rule        : Z;
  _incomplete  : bool;
}.

Record Vertex : Type := mkVertex {
  vertFaces : list Index;
  vertTag   : VTag;
}.

(** Modelled from the spec: [Vtr::Level], a snapshot of the connectivity at
    one depth, with the accessors the driver consumes: the vertex list of a
    face, the face list of a vertex and the per-vertex tags. *)
Record Level : Type := mkLevel {
  faceVertLists : list (list Index);
  vertices      : list Vertex;
}.

Definition emptyLevel : Level := mkLevel [] [].

Definition getNumFaces (l : Level) : Z := Z.of_nat (length (faceVertLists l)).
Definition getNumVertices (l : Level) : Z := Z.of_nat (length (vertices l)).

Definition lookupZ {A : Type} (v : list A) (i : Z) : option A :=
  if bool_decide (0 ≤ i) then v !! Z.to_nat i else None.

Definition getFaceVertices (l : Level) (f : Index) : list Index :=
  default [] (lookupZ (faceVertLists l) f).

Definition getVertexFaces (l : Level) (v : Index) : list Index :=
  default [] (vertFaces <$> lookupZ (vertices l) v).

Definition noTag : VTag := mkVTag false false false 0 false.

Definition getVertexTag (l : Level) (v : Index) : VTag :=
  default noTag (vertTag <$> lookupZ (vertices l) v).

(** [a.size()] of an [IndexArray], an [int]. *)
Definition arraySize {A : Type} (a : list A) : Z := Z.of_nat (length a).

Definition combineVTag (a b : VTag) : VTag :=
  mkVTag (_nonManifold a || _nonManifold b)
         (_xordinary a || _xordinary b)
         (_semiSharp a || _semiSharp b)
         (Z.lor (_rule a) (_rule b))
         (_incomplete a || _incomplete b).

(** Modelled from the spec: [Vtr::Level::getFaceCompositeVTag], the
    aggregation across the vertices of a face of incompleteness,
    extraordinary valence, semi-sharpness, non-manifoldness and the
    bitwise-combined rule. *)
Definition getFaceCompositeVTag (l : Level) (faceVerts : list Index) : VTag :=
  foldl (λ acc v, combineVTag acc (getVertexTag l v)) noTag faceVerts.

(** [Vtr::Refinement::Options], the two flags the driver sets. *)
Record RefineOptions : Type := mkOptions {
  _sparse           : bool;
  _faceTopologyOnly : bool;
}.

Definition defaultOptions : RefineOptions := mkOptions false false.

(** Modelled from the spec: [Vtr::Refinement], bound to a scheme by
    [setScheme], to a parent and a child slot of the level vector by
    [initialize], and holding the parent faces a selector marked. *)
Record Refinement : Type := mkRefinement {
  _scheme        : option (SdcType * SdcOptions);
  _parentChild   : option (Z * Z);
  _selectedFaces : gset Z;
}.

Definition emptyRefinement : Refinement := mkRefinement None None ∅.

Definition setScheme (t : SdcType) (o : SdcOptions) (r : Refinement) : Refinement :=
  mkRefinement (Some (t, o)) (_parentChild r) (_selectedFaces r).

Definition initialize (parent child : Z) (r : Refinement) : Refinement :=
  mkRefinement (_scheme r) (Some (parent, child)) (_selectedFaces r).

(** The refine step of Vtr, [Refinement::refine(options)]: it builds the
    child level from the refinement (its scheme and marked faces), the parent
    level and the options. *)
Class VtrRefine : Type := {
  refine : Refinement → Level → RefineOptions → Level;
}.

(** Modelled from the spec: [Vtr::SparseSelector], an accumulator of the
    parent faces chosen for refinement, with the query for nothing selected. *)
Record SparseSelector : Type := mkSelector {
  selectedFaces : gset Z;
}.

Definition newSelector : SparseSelector := mkSelector ∅.

Definition selectFace (f : Index) (s : SparseSelector) : SparseSelector :=
  mkSelector ({[ f ]} ∪ selectedFaces s).

Definition isSelectionEmpty (s : SparseSelector) : bool :=
  bool_decide (selectedFaces s = ∅).

(** A selector writes its marks into the refinement it is bound to. *)
Definition markSelection (s : SparseSelector) (r : Refinement) : Refinement :=
  mkRefinement (_scheme r) (_parentChild r) (selectedFaces s).

(** ** Far::TopologyRefiner *)

Record TopologyRefiner : Type := mkRefiner {
  _subdivType    : SdcType;
  _subdivOptions : SdcOptions;
  _isUniform     : bool;
  _maxLevel      : Z;
  _levels        : list Level;
  _refinements   : list Refinement;
  _ptexIndices   : list Z;
}.

Definition with_isUniform (b : bool) (t : TopologyRefiner) : TopologyRefiner :=
  mkRefiner (_subdivType t) (_subdivOptions t) b (_maxLevel t)
            (_levels t) (_refinements t) (_ptexIndices t).

Definition with_maxLevel (m : Z) (t : TopologyRefiner) : TopologyRefiner :=
  mkRefiner (_subdivType t) (_subdivOptions t) (_isUniform t) m
            (_levels t) (_refinements t) (_ptexIndices t).

Definition with_levels (ls : list Level) (t : TopologyRefiner) : TopologyRefiner :=
  mkRefiner (_subdivType t) (_subdivOptions t) (_isUniform t) (_maxLevel t)
            ls (_refinements t) (_ptexIndices t).

Definition with_refinements (rs : list Refinement) (t : TopologyRefiner) : TopologyRefiner :=
  mkRefiner (_subdivType t) (_subdivOptions t) (_isUniform t) (_maxLevel t)
            (_levels t) rs (_ptexIndices t).

Definition with_ptexIndices (ps : list Z) (t : TopologyRefiner) : TopologyRefiner :=
  mkRefiner (_subdivType t) (_subdivOptions t) (_isUniform t) (_maxLevel t)
            (_levels t) (_refinements t) ps.

(** The constructor: one default level, no refinement. *)
Definition newTopologyRefiner (schemeType : SdcType) (schemeOptions : SdcOptions)
  : TopologyRefiner :=
  mkRefiner schemeType schemeOptions true 0 (resize 1 emptyLevel []) [] [].

Definition Unrefine (t : TopologyRefiner) : TopologyRefiner :=
  let t := if bool_decide (length (_levels t) ≠ 0%nat)
           then with_levels (resize 1 emptyLevel (_levels t)) t
           else t in
  with_refinements [] t.

Definition Clear (t : TopologyRefiner) : TopologyRefiner :=
  with_refinements [] (with_levels [] t).

(** ** Ptex indexing *)

Section Ptex.
Context `{SdcTraits}.

(** One pass of the loop of [computePtexIndices]: store the running index at
    slot [i], then advance it by the contribution of face [i]. *)
Definition ptexStep (SCHEME_TYPE : SdcType) (coarseLevel : Level)
    (acc : list Z * Z) (i : Z) : list Z * Z :=
  let '(ptexIndices, ptexID) := acc in
  let ptexIndices := <[Z.to_nat i := ptexID]> ptexIndices in
  let fverts := getFaceVertices coarseLevel i in
  (ptexIndices,
   add32 ptexID (if bool_decide (arraySize fverts = RegularFaceValence SCHEME_TYPE)
                 then 1 else arraySize fverts)).

Definition computePtexIndices (SCHEME_TYPE : SdcType) (coarseLevel : Level)
    (ptexIndices : list Z) : list Z :=
  let nfaces := getNumFaces coarseLevel in
  let ptexIndices := resize (Z.to_nat (nfaces + 1)) 0 ptexIndices in
  let '(ptexIndices, ptexID) :=
    foldl (ptexStep SCHEME_TYPE coarseLevel) (ptexIndices, 0) (seqZ 0 nfaces) in
  <[Z.to_nat nfaces := ptexID]> ptexIndices.

Definition initializePtexIndices (t : TopologyRefiner) : outcome TopologyRefiner :=
  match _subdivType t with
  | TYPE_BILINEAR =>
      l0 ← at_index (_levels t) 0;
      mret (with_ptexIndices (computePtexIndices TYPE_BILINEAR l0 (_ptexIndices t)) t)
  | TYPE_CATMARK =>
      l0 ← at_index (_levels t) 0;
      mret (with_ptexIndices (computePtexIndices TYPE_CATMARK l0 (_ptexIndices t)) t)
  | TYPE_LOOP =>
      l0 ← at_index (_levels t) 0;
      mret (with_ptexIndices (computePtexIndices TYPE_LOOP l0 (_ptexIndices t)) t)
  end.

(** [v.back()], unchecked in the source. *)
Definition back {A : Type} (v : list A) : outcome A :=
  match last v with
  | Some a => Done a
  | None => Abort OutOfBounds
  end.

(** The Ptex queries are [const] but fill the cache through a [const_cast]:
    they return the value and the refiner with its cache. *)
Definition GetNumPtexFaces (t : TopologyRefiner) : outcome (Z * TopologyRefiner) :=
  t ← (if bool_decide (_ptexIndices t = []) then initializePtexIndices t else mret t);
  n ← back (_ptexIndices t);
  mret (n, t).

Definition GetPtexIndex (f : Index) (t : TopologyRefiner) : outcome (Z * TopologyRefiner) :=
  t ← (if bool_decide (_ptexIndices t = []) then initializePtexIndices t else mret t);
  if bool_decide (f < Z.of_nat (length (_ptexIndices t)) - 1) then
    n ← at_index (_ptexIndices t) f;
    mret (n, t)
  else mret (-1, t).

End Ptex.

(** ** The feature-adaptive selector *)

Section Selector.
Context `{SdcTraits}.

(** The non-quad branch: select every face incident to every vertex of the
    face. *)
Definition selectIncidentFaces (level : Level) (fVerts : list Index)
    (selector : SparseSelector) : SparseSelector :=
  foldl (λ selector v,
           foldl (λ selector g, selectFace g selector) selector
                 (getVertexFaces level v))
        selector fVerts.

(** The chain of tests on the composite tag of a quad. *)
Definition quadNeedsIsolation (compFaceTag : VTag) : bool :=
  if _xordinary compFaceTag || _semiSharp compFaceTag then true
  else if bool_decide (Z.land (_rule compFaceTag) RULE_DART ≠ 0) then true
  else if _nonManifold compFaceTag then true
  else if bool_decide (Z.land (_rule compFaceTag) RULE_SMOOTH = 0) then true
  else false.

(** The body of the loop over the faces of the parent level. *)
Definition selectorStep (level : Level) (selector : SparseSelector) (face : Index)
  : SparseSelector :=
  let faceVerts := getFaceVertices level face in
  if bool_decide (arraySize faceVerts ≠ 4) then
    let fVerts := getFaceVertices level face in
    selectIncidentFaces level fVerts selector
  else
    let compFaceTag := getFaceCompositeVTag level faceVerts in
    if _incomplete compFaceTag then selector
    else
      let selectFace_ := quadNeedsIsolation compFaceTag in
      if selectFace_ then selectFace face selector else selector.

Definition catmarkFeatureAdaptiveSelector (level : Level) (selector : SparseSelector)
  : SparseSelector :=
  foldl (selectorStep level) selector (seqZ 0 (getNumFaces level)).

End Selector.

(** ** The refinement drivers *)

(** A call [refinements[i-1].refine(options)], recorded as [(i, options)]. *)
Abbreviation RefineCall := (Z * RefineOptions)%type.

Section Drivers.
Context `{SdcTraits} `{VtrRefine}.

(** The loop of [RefineUniform] over [i = 1 .. maxLevel]. *)
Fixpoint uniformLoop (idxs : list Z) (maxLevel : Z) (fullTopology : bool)
    (refineOptions : RefineOptions) (t : TopologyRefiner) (calls : list RefineCall)
  : outcome (TopologyRefiner * list RefineCall) :=
  match idxs with
  | [] => mret (t, calls)
  | i :: idxs =>
      let refineOptions :=
        mkOptions (_sparse refineOptions)
                  (if fullTopology then false else bool_decide (i = maxLevel)) in
      r ← at_index (_refinements t) (i - 1);
      let r := setScheme (_subdivType t) (_subdivOptions t) r in
      parent ← at_index (_levels t) (i - 1);
      _ ← at_index (_levels t) i;
      let r := initialize (i - 1) i r in
      let t := with_refinements (<[Z.to_nat (i - 1) := r]> (_refinements t)) t in
      let t := with_levels (<[Z.to_nat i := refine r parent refineOptions]> (_levels t)) t in
      uniformLoop idxs maxLevel fullTopology refineOptions t (calls ++ [(i, refineOptions)])
  end.

Definition RefineUniform (maxLevel : Z) (fullTopology : bool) (t : TopologyRefiner)
  : outcome (TopologyRefiner * list RefineCall) :=
  l0 ← at_index (_levels t) 0;
  assert (bool_decide (getNumVertices l0 > 0));;
  assert (bool_decide (_subdivType t = TYPE_CATMARK));;
  let t := with_isUniform true t in
  let t := with_maxLevel maxLevel t in
  ls ← vresize emptyLevel (add32 maxLevel 1) (_levels t);
  let t := with_levels ls t in
  rs ← vresize emptyRefinement maxLevel (_refinements t);
  let t := with_refinements rs t in
  let refineOptions := mkOptions false (_faceTopologyOnly defaultOptions) in
  uniformLoop (seqZ 1 maxLevel) maxLevel fullTopology refineOptions t [].

(** The loop of [RefineAdaptive] over [i = 1 .. subdivLevel], left early by
    the [break] of the empty-selection branch. *)
Fixpoint adaptiveLoop (idxs : list Z) (refineOptions : RefineOptions)
    (t : TopologyRefiner) (calls : list RefineCall)
  : outcome (TopologyRefiner * list RefineCall) :=
  match idxs with
  | [] => mret (t, calls)
  | i :: idxs =>
      let refineOptions := mkOptions (_sparse refineOptions) false in
      parentLevel ← at_index (_levels t) (i - 1);
      _ ← at_index (_levels t) i;
      refinement ← at_index (_refinements t) (i - 1);
      let refinement := setScheme (_subdivType t) (_subdivOptions t) refinement in
      let refinement := initialize (i - 1) i refinement in
      let selector := catmarkFeatureAdaptiveSelector parentLevel newSelector in
      let refinement := markSelection selector refinement in
      let t := with_refinements (<[Z.to_nat (i - 1) := refinement]> (_refinements t)) t in
      if negb (isSelectionEmpty selector) then
        let t := with_levels
                   (<[Z.to_nat i := refine refinement parentLevel refineOptions]> (_levels t)) t in
        adaptiveLoop idxs refineOptions t (calls ++ [(i, refineOptions)])
      else
        let maxLevel := i - 1 in
        let t := with_maxLevel maxLevel t in
        ls ← vresize emptyLevel (add32 maxLevel 1) (_levels t);
        let t := with_levels ls t in
        rs ← vresize emptyRefinement maxLevel (_refinements t);
        let t := with_refinements rs t in
        mret (t, calls)
  end.

Definition RefineAdaptive (subdivLevel : Z) (fullTopology : bool) (t : TopologyRefiner)
  : outcome (TopologyRefiner * list RefineCall) :=
  l0 ← at_index (_levels t) 0;
  assert (bool_decide (getNumVertices l0 > 0));;
  assert (bool_decide (_subdivType t = TYPE_CATMARK));;
  let t := with_isUniform false t in
  let t := with_maxLevel subdivLevel t in
  ls ← vresize emptyLevel (add32 subdivLevel 1) (_levels t);
  let t := with_levels ls t in
  rs ← vresize emptyRefinement subdivLevel (_refinements t);
  let t := with_refinements rs t in
  let refineOptions := mkOptions true (negb fullTopology) in
  adaptiveLoop (seqZ 1 subdivLevel) refineOptions t [].

End Drivers.

(** ** Notions the properties are stated with *)

Definition Zsum (l : list Z) : Z := foldr Z.add 0 l.

Section Notions.
Context `{SdcTraits} `{VtrRefine}.

(** Ptex faces of one base face: one for a face of regular valence, one per
    corner otherwise. *)
Definition ptexFaceCount (scheme : SdcType) (fverts : list Index) : Z :=
  if bool_decide (arraySize fverts = RegularFaceValence scheme) then 1
  else arraySize fverts.

(** The first Ptex index of face [k]: the Ptex faces of the faces before it. *)
Definition ptexOffset (scheme : SdcType) (level : Level) (k : nat) : Z :=
  Zsum (ptexFaceCount scheme <$> take k (faceVertLists level)).

Definition ptexTotal (scheme : SdcType) (level : Level) : Z :=
  Zsum (ptexFaceCount scheme <$> faceVertLists level).

(** The condition under which a quad is isolated, read off the tags of its
    vertices: the composite tag is complete, and an extraordinary vertex, a
    semi-sharp feature or a Dart rule bit is present, or a vertex is
    non-manifold, or no vertex has the Smooth rule bit. *)
Definition quadSelectCondition (level : Level) (f : Index) : bool :=
  let verts := getFaceVertices level f in
  let tag := getFaceCompositeVTag level verts in
  negb (_incomplete tag) &&
  (_xordinary tag
   || _semiSharp tag
   || bool_decide (Z.land (_rule tag) RULE_DART ≠ 0)
   || existsb (λ v, _nonManifold (getVertexTag level v)) verts
   || forallb (λ v, bool_decide (Z.land (_rule (getVertexTag level v)) RULE_SMOOTH = 0)) verts).

(** [g] is reached by the neighbour expansion of a non-quad face: it is in
    the face list of a vertex of a face of the level that is not a quad. *)
Definition nearNonQuad (level : Level) (g : Index) : Prop :=
  ∃ f v, 0 ≤ f < getNumFaces level ∧ arraySize (getFaceVertices level f) ≠ 4 ∧
         v ∈ getFaceVertices level f ∧ g ∈ getVertexFaces level v.

(** What the examination of [face] adds to the selection: the faces around
    its vertices when it is not a quad, itself when it is a quad that meets
    the isolation condition. *)
Definition stepSelects (level : Level) (face g : Index) : Prop :=
  (arraySize (getFaceVertices level face) ≠ 4 ∧
   ∃ v, v ∈ getFaceVertices level face ∧ g ∈ getVertexFaces level v)
  ∨ (arraySize (getFaceVertices level face) = 4 ∧ g = face ∧
     quadSelectCondition level face = true).

(** Every face is listed in the face list of each of its vertices. *)
Definition facesListedAtVertices (level : Level) : bool :=
  forallb (λ g, forallb (λ v, bool_decide (g ∈ getVertexFaces level v))
                        (getFaceVertices level g))
          (seqZ 0 (getNumFaces level)).

(** The selection of a fresh selector over a level. *)
Definition featureSelection (level : Level) : gset Z :=
  selectedFaces (catmarkFeatureAdaptiveSelector level newSelector).

(** What the adaptive loop passes to every refine step. *)
Definition adaptiveOptions : RefineOptions := mkOptions true false.

(** The child that iteration [i] of the adaptive loop builds from [parent]. *)
Definition adaptiveChild (ty : SdcType) (so : SdcOptions) (i : Z) (parent : Level) : Level :=
  refine (mkRefinement (Some (ty, so)) (Some (i - 1, i)) (featureSelection parent))
         parent adaptiveOptions.

(** Level [i - 1 + k] of the adaptive hierarchy whose level [i - 1] is [p],
    as long as the selections stay non-empty. *)
Fixpoint adaptiveLevelFrom (ty : SdcType) (so : SdcOptions) (p : Level) (i : Z) (k : nat)
  : Level :=
  match k with
  | O => p
  | S k' => adaptiveChild ty so (i + Z.of_nat k') (adaptiveLevelFrom ty so p i k')
  end.

Definition adaptiveLevel (t : TopologyRefiner) (base : Level) (k : Z) : Level :=
  adaptiveLevelFrom (_subdivType t) (_subdivOptions t) base 1 (Z.to_nat k).

(** The refine calls of iterations [1 .. m] of the two drivers. *)
Definition adaptiveCalls (m : Z) : list RefineCall :=
  (λ i, (i, adaptiveOptions)) <$> seqZ 1 m.

Definition uniformCalls (maxLevel : Z) (fullTopology : bool) : list RefineCall :=
  (λ i, (i, mkOptions false (if fullTopology then false else bool_decide (i = maxLevel))))
    <$> seqZ 1 maxLevel.

End Notions.

(** ** Totals over the hierarchy *)

(** The per-level counts of Vtr that the level record above does not carry:
    [Level::getNumEdges()] and [Level::getNumFVarValues(channel)]. *)
Class VtrLevelCounts : Type := {
  getNumEdges : Level → Z;
  getNumFVarValues : Level → Z → Z;
}.

(** Modelled from the spec: [Vtr::Level::getNumFaceVerticesTotal], the number
    of face-vertex entries of a level. *)
Definition getNumFaceVerticesTotal (l : Level) : Z :=
  Zsum (arraySize <$> faceVertLists l).

(** The loop shared by the five totals:
    [int sum = 0; for (i = 0; i < (int)_levels.size(); ++i) sum += count(_levels[i])]. *)
Definition levelsTotal (count : Level → Z) (levels : list Level) : Z :=
  foldl (λ sum i, add32 sum (from_option count 0 (lookupZ levels i)))
        0 (seqZ 0 (Z.of_nat (length levels))).

Definition GetNumVerticesTotal (t : TopologyRefiner) : Z :=
  levelsTotal getNumVertices (_levels t).

Definition GetNumFacesTotal (t : TopologyRefiner) : Z :=
  levelsTotal getNumFaces (_levels t).

Definition GetNumFaceVerticesTotal (t : TopologyRefiner) : Z :=
  levelsTotal getNumFaceVerticesTotal (_levels t).

Section EdgeAndFVarTotals.
Context `{VtrLevelCounts}.

Definition GetNumEdgesTotal (t : TopologyRefiner) : Z :=
  levelsTotal getNumEdges (_levels t).

Definition GetNumFVarValuesTotal (channel : Z) (t : TopologyRefiner) : Z :=
  levelsTotal (λ l, getNumFVarValues l channel) (_levels t).

End EdgeAndFVarTotals.

(** ** Further notions *)

(** The value a Ptex query returns, without the refiner it hands back. *)
Definition answer {A : Type} (o : outcome (A * TopologyRefiner)) : outcome A :=
  match o with
  | Done (a, _) => Done a
  | Abort e => Abort e
  end.

(** The sum of a per-level count over the levels fits an [int], every count
    being non-negative. *)
Definition totalFits (count : Level → Z) (levels : list Level) : Prop :=
  Forall (λ l, 0 ≤ count l) levels ∧ Zsum (count <$> levels) ≤ INT_MAX.

(** The face lists of the vertices name faces of the level only. *)
Definition vertexFacesInRange (level : Level) : bool :=
  forallb (λ vtx, forallb (λ g, bool_decide (0 ≤ g < getNumFaces level)) (vertFaces vtx))
          (vertices level).



(** The refinement iteration [i] of a driver leaves in slot [i - 1]: bound to
    the scheme and to the levels [i - 1] and [i], with the marks [sel]. *)
Definition boundRefinement (t : TopologyRefiner) (i : Z) (sel : gset Z) : Refinement :=
  mkRefinement (Some (_subdivType t, _subdivOptions t)) (Some (i - 1, i)) sel.

(** ** Sample meshes and collaborators *)

(** The traits of the three schemes: quads for Bilinear and Catmark,
    triangles for Loop; the rule bits of [Sdc::Crease]. *)
Definition sampleTraits : SdcTraits :=
  {| RegularFaceValence := λ t, match t with TYPE_LOOP => 3 | _ => 4 end;
     RULE_SMOOTH := 1;
     RULE_DART := 2 |}.

Definition smoothTag : VTag := mkVTag false false false 1 false.

(** A single quad with four smooth, regular vertices. *)
Definition oneQuad : Level :=
  mkLevel [[0; 1; 2; 3]]
          [mkVertex [0] smoothTag; mkVertex [0] smoothTag;
           mkVertex [0] smoothTag; mkVertex [0] smoothTag].

(** A pentagon (face 0) and a quad (face 1) sharing vertex 0, all vertices
    smooth. *)
Definition pentaQuad : Level :=
  mkLevel [[0; 1; 2; 3; 4]; [0; 5; 6; 7]]
          [mkVertex [0; 1] smoothTag; mkVertex [0] smoothTag; mkVertex [0] smoothTag;
           mkVertex [0] smoothTag; mkVertex [0] smoothTag;
           mkVertex [1] smoothTag; mkVertex [1] smoothTag; mkVertex [1] smoothTag].

(** A quad and a hexagon sharing the edge (1, 2). *)
Definition quadHexagon : Level :=
  mkLevel [[0; 1; 2; 3]; [1; 4; 5; 6; 7; 2]]
          [mkVertex [0] smoothTag; mkVertex [0; 1] smoothTag;
           mkVertex [0; 1] smoothTag; mkVertex [0] smoothTag;
           mkVertex [1] smoothTag; mkVertex [1] smoothTag;
           mkVertex [1] smoothTag; mkVertex [1] smoothTag].

(** A refine step that answers every call with the single smooth quad. *)
Definition sampleRefine : VtrRefine := {| refine := λ _ _ _, oneQuad |}.

Definition sampleRefiner (base : Level) : TopologyRefiner :=
  mkRefiner TYPE_CATMARK 0 true 0 [base] [] [].

(** Edge and face-varying counts for the sample meshes: none recorded. *)
Definition sampleCounts : VtrLevelCounts :=
  {| getNumEdges := λ _, 0; getNumFVarValues := λ _ _, 0 |}.

(** A refine step that answers every call with the pentagon and the quad,
    so that the selection never becomes empty. *)
Definition pentaRefine : VtrRefine := {| refine := λ _ _ _, pentaQuad |}.

(** ** Unrefine and Clear *)

(** C6 (as amended): [Unrefine] keeps the first level, unchanged, when there
    is one and leaves an empty level vector empty; the refinements are
    emptied and nothing else changes. *)
Theorem Unrefine_keeps_base (t : TopologyRefiner) :
  _levels (Unrefine t) = match _levels t with
                         | [] => []
                         | base :: _ => [base]
                         end
  ∧ _refinements (Unrefine t) = []
  ∧ _ptexIndices (Unrefine t) = _ptexIndices t
  ∧ _subdivType (Unrefine t) = _subdivType t
  ∧ _subdivOptions (Unrefine t) = _subdivOptions t.
Proof.
  unfold Unrefine. destruct t as [ty so u m ls rs ps]; simpl.
  destruct ls as [|base rest]; case_bool_decide; simpl in *;
    try congruence; rewrite ?resize_0; repeat split; reflexivity.
Qed.

(** C6, the claim as stated fails: after [Clear] there is no level, and
    [Unrefine] does not bring one back. *)
Lemma Unrefine_after_Clear_has_no_level :
  let t := Unrefine (Clear (newTopologyRefiner TYPE_CATMARK 0)) in
  _levels t = [] ∧ length (_levels t) ≠ 1%nat.
Proof. split; [reflexivity | simpl; discriminate]. Qed.

Section PtexCache.
Context `{SdcTraits}.

Lemma initializePtexIndices_eq (t : TopologyRefiner) :
  initializePtexIndices t =
    (l0 ← at_index (_levels t) 0;
     mret (with_ptexIndices (computePtexIndices (_subdivType t) l0 (_ptexIndices t)) t)).
Proof. unfold initializePtexIndices. destruct (_subdivType t); reflexivity. Qed.

Lemma at_index_nil {A : Type} (i : Z) : at_index (@nil A) i = Abort OutOfBounds.
Proof. unfold at_index. case_bool_decide; [rewrite lookup_nil|]; reflexivity. Qed.

Lemma at_index_0_cons {A : Type} (a : A) (v : list A) : at_index (a :: v) 0 = Done a.
Proof. reflexivity. Qed.

(** *** The prefix sums behind the Ptex indices *)

Lemma Zsum_app (l k : list Z) : Zsum (l ++ k) = Zsum l + Zsum k.
Proof. induction l as [|x l IH]; simpl; [reflexivity | rewrite IH; lia]. Qed.

Lemma Zsum_nonneg (l : list Z) : Forall (λ x, 0 ≤ x) l → 0 ≤ Zsum l.
Proof. induction 1; simpl; lia. Qed.

Lemma ptexFaceCount_nonneg scheme (fverts : list Index) : 0 ≤ ptexFaceCount scheme fverts.
Proof. unfold ptexFaceCount, arraySize. case_bool_decide; lia. Qed.

Lemma ptexCounts_nonneg scheme (faces : list (list Index)) :
  Forall (λ x, 0 ≤ x) (ptexFaceCount scheme <$> faces).
Proof.
  apply Forall_fmap, Forall_forall. intros fv _. apply ptexFaceCount_nonneg.
Qed.

Lemma ptexOffset_S scheme level (k : nat) (fv : list Index) :
  faceVertLists level !! k = Some fv →
  ptexOffset scheme level (S k) = ptexOffset scheme level k + ptexFaceCount scheme fv.
Proof.
  intros Hk. unfold ptexOffset. rewrite (take_S_r _ _ _ Hk), fmap_app, Zsum_app.
  simpl. lia.
Qed.

Lemma ptexOffset_le scheme level (j k : nat) :
  (j ≤ k)%nat → ptexOffset scheme level j ≤ ptexOffset scheme level k.
Proof.
  intros Hjk. unfold ptexOffset.
  replace k with (j + (k - j))%nat by lia.
  rewrite <- take_take_drop, fmap_app, Zsum_app.
  pose proof (Zsum_nonneg _ (ptexCounts_nonneg scheme (take (k - j) (drop j (faceVertLists level))))).
  lia.
Qed.

Lemma ptexOffset_total scheme level (k : nat) :
  (length (faceVertLists level) ≤ k)%nat → ptexOffset scheme level k = ptexTotal scheme level.
Proof. intros Hk. unfold ptexOffset, ptexTotal. rewrite take_ge by exact Hk. reflexivity. Qed.

Lemma ptexOffset_bounds scheme level (k : nat) :
  0 ≤ ptexOffset scheme level k ≤ ptexTotal scheme level.
Proof.
  split.
  - apply Zsum_nonneg, ptexCounts_nonneg.
  - rewrite <- (ptexOffset_total scheme level (k + length (faceVertLists level))) by lia.
    apply ptexOffset_le. lia.
Qed.

Lemma wrap32_small (z : Z) : - 2 ^ 31 ≤ z ≤ INT_MAX → wrap32 z = z.
Proof.
  unfold wrap32, INT_MAX. intros Hz.
  rewrite Z.mod_small by lia. lia.
Qed.

Lemma getFaceVertices_lookup level (k : nat) (fv : list Index) :
  faceVertLists level !! k = Some fv → getFaceVertices level (Z.of_nat k) = fv.
Proof.
  intros Hk. unfold getFaceVertices, lookupZ.
  rewrite bool_decide_eq_true_2 by lia. rewrite Nat2Z.id, Hk. reflexivity.
Qed.

(** The loop of [computePtexIndices] after [m] faces, when the total fits an
    [int]: the running index is the offset of face [m], slots below [m] hold
    their offsets, the other slots are untouched. *)
Lemma ptex_loop_prefix scheme level (ind : list Z) (m : nat) :
  ptexTotal scheme level ≤ INT_MAX →
  (m ≤ length (faceVertLists level))%nat →
  ∃ ind', foldl (ptexStep scheme level) (ind, 0) (seqZ 0 (Z.of_nat m))
            = (ind', ptexOffset scheme level m)
          ∧ length ind' = length ind
          ∧ (∀ j, (j < m)%nat → (j < length ind)%nat →
                  ind' !! j = Some (ptexOffset scheme level j))
          ∧ (∀ j, (m ≤ j)%nat → ind' !! j = ind !! j).
Proof.
  intros Htot. induction m as [|m IH]; intros Hm.
  - exists ind. repeat split; try reflexivity. intros j Hj; lia.
  - destruct IH as (ind' & Hfold & Hlen & Hlow & Hhigh); [lia|].
    destruct (lookup_lt_is_Some_2 (faceVertLists level) m) as [fv Hfv]; [lia|].
    rewrite seqZ_S, foldl_app, Hfold. simpl.
    rewrite Z.add_0_l, Nat2Z.id, (getFaceVertices_lookup _ _ _ Hfv).
    change (if bool_decide (arraySize fv = RegularFaceValence scheme)
            then 1 else arraySize fv) with (ptexFaceCount scheme fv).
    unfold add32. rewrite <- (ptexOffset_S _ _ _ _ Hfv).
    rewrite wrap32_small.
    2:{ pose proof (ptexOffset_bounds scheme level (S m)). lia. }
    eexists. split; [reflexivity|]. split; [|split].
    + rewrite length_insert. exact Hlen.
    + intros j Hj Hjl. destruct (decide (j = m)) as [->|Hne].
      * rewrite list_lookup_insert_eq by lia. reflexivity.
      * rewrite list_lookup_insert_ne by lia. apply Hlow; lia.
    + intros j Hj. rewrite list_lookup_insert_ne by lia. apply Hhigh. lia.
Qed.

(** Without overflow, the indices are the offsets of the faces followed by
    the total, whatever the vector held before. *)
Lemma computePtexIndices_offsets scheme level (old : list Z) :
  ptexTotal scheme level ≤ INT_MAX →
  computePtexIndices scheme level old
    = ptexOffset scheme level <$> seq 0 (S (length (faceVertLists level))).
Proof.
  intros Htot. unfold computePtexIndices, getNumFaces.
  set (n := length (faceVertLists level)).
  set (ind := resize _ _ _).
  assert (Hind : length ind = S n).
  { subst ind. rewrite length_resize. lia. }
  destruct (ptex_loop_prefix scheme level ind n Htot) as (ind' & Hfold & Hlen & Hlow & _);
    [reflexivity|].
  rewrite Hfold, Nat2Z.id.
  apply list_eq. intros i.
  rewrite list_lookup_fmap.
  destruct (decide (i < n)%nat) as [Hi|Hi].
  - rewrite list_lookup_insert_ne by lia. rewrite Hlow by lia.
    rewrite lookup_seq_lt by lia. reflexivity.
  - destruct (decide (i = n)) as [->|Hne].
    + rewrite list_lookup_insert_eq by lia. rewrite lookup_seq_lt by lia. reflexivity.
    + rewrite lookup_seq_ge by lia. apply lookup_ge_None_2. rewrite length_insert. lia.
Qed.

Lemma ptex_loop_length scheme level (idxs : list Z) (acc : list Z * Z) :
  length (foldl (ptexStep scheme level) acc idxs).1 = length acc.1.
Proof.
  revert acc. induction idxs as [|i idxs IH]; intros [ind id]; simpl; [reflexivity|].
  rewrite IH. simpl. apply length_insert.
Qed.

Lemma computePtexIndices_length scheme level (old : list Z) :
  length (computePtexIndices scheme level old) = S (length (faceVertLists level)).
Proof.
  unfold computePtexIndices, getNumFaces.
  pose proof (ptex_loop_length scheme level
                (seqZ 0 (Z.of_nat (length (faceVertLists level))))
                (resize (Z.to_nat (Z.of_nat (length (faceVertLists level)) + 1)) 0 old, 0))
    as Hl.
  destruct (foldl _ _ _) as [ind id]. simpl in Hl.
  rewrite length_insert, Hl, length_resize. lia.
Qed.

(** C7 (as amended): [Clear] empties the levels and the refinements and
    leaves the Ptex cache as it is; a later Ptex query answers from a cache
    that was filled before the [Clear]: [GetNumPtexFaces] with its last
    entry, [GetPtexIndex] with the entry of a face index the cache covers. *)
Theorem Clear_keeps_ptex_cache (t : TopologyRefiner) :
  _levels (Clear t) = []
  ∧ _refinements (Clear t) = []
  ∧ _ptexIndices (Clear t) = _ptexIndices t
  ∧ (∀ n, last (_ptexIndices t) = Some n →
       GetNumPtexFaces (Clear t) = Done (n, Clear t))
  ∧ (∀ f n, 0 ≤ f < Z.of_nat (length (_ptexIndices t)) - 1 →
       _ptexIndices t !! Z.to_nat f = Some n →
       GetPtexIndex f (Clear t) = Done (n, Clear t)).
Proof.
  split; [reflexivity|]. split; [reflexivity|]. split; [reflexivity|]. split.
  - intros n Hn. unfold GetNumPtexFaces.
    change (_ptexIndices (Clear t)) with (_ptexIndices t).
    rewrite bool_decide_eq_false_2 by (intros Hc; rewrite Hc in Hn; discriminate).
    simpl. unfold back. change (_ptexIndices (Clear t)) with (_ptexIndices t).
    rewrite Hn. reflexivity.
  - intros f n Hf Hn. unfold GetPtexIndex.
    change (_ptexIndices (Clear t)) with (_ptexIndices t).
    rewrite bool_decide_eq_false_2 by (intros Hc; rewrite Hc in Hn; discriminate).
    simpl. change (_ptexIndices (Clear t)) with (_ptexIndices t).
    rewrite bool_decide_eq_true_2 by lia.
    unfold at_index. rewrite bool_decide_eq_true_2 by lia. rewrite Hn. reflexivity.
Qed.

(** C10: with an empty cache every Ptex query starts by reading
    [levels[0]], whatever the scheme; that read, and with it the query, is
    in bounds exactly when there is a level.  A new refiner has one; a
    cleared one has none, and its queries fault. *)
Theorem ptex_queries_need_level_0 (t : TopologyRefiner) (f : Index) :
  _ptexIndices t = [] →
  initializePtexIndices t =
    (l0 ← at_index (_levels t) 0;
     mret (with_ptexIndices (computePtexIndices (_subdivType t) l0 []) t))
  ∧ GetNumPtexFaces t =
      (t' ← initializePtexIndices t; n ← back (_ptexIndices t'); mret (n, t'))
  ∧ (_levels t ≠ [] ↔ ∃ t', initializePtexIndices t = Done t')
  ∧ (_levels t ≠ [] ↔ ∃ r, GetNumPtexFaces t = Done r)
  ∧ (_levels t = [] → GetNumPtexFaces t = Abort OutOfBounds
                     ∧ GetPtexIndex f t = Abort OutOfBounds)
  ∧ (∀ ty so, _levels (newTopologyRefiner ty so) ≠ [])
  ∧ _levels (Clear t) = []
  ∧ GetNumPtexFaces (Clear t) = Abort OutOfBounds
  ∧ GetPtexIndex f (Clear t) = Abort OutOfBounds.
Proof.
  intros Hc.
  assert (Hnil : ∀ u, _ptexIndices u = [] → _levels u = [] →
            GetNumPtexFaces u = Abort OutOfBounds ∧ GetPtexIndex f u = Abort OutOfBounds).
  { intros u Hu Hl. unfold GetNumPtexFaces, GetPtexIndex.
    rewrite bool_decide_eq_true_2 by exact Hu.
    rewrite initializePtexIndices_eq, Hl, at_index_nil. split; reflexivity. }
  assert (Hget : GetNumPtexFaces t =
      (t' ← initializePtexIndices t; n ← back (_ptexIndices t'); mret (n, t'))).
  { unfold GetNumPtexFaces. rewrite bool_decide_eq_true_2 by exact Hc. reflexivity. }
  split; [rewrite initializePtexIndices_eq, Hc; reflexivity|].
  split; [exact Hget|].
  split; [|split; [|split; [|split; [|split; [|split]]]]].
  - rewrite initializePtexIndices_eq. destruct (_levels t) as [|l0 rest].
    + rewrite at_index_nil. split; [congruence | intros [t' Ht']; discriminate].
    + split; [intros _; eexists; reflexivity | discriminate].
  - rewrite Hget, initializePtexIndices_eq. destruct (_levels t) as [|l0 rest].
    + rewrite at_index_nil. split; [congruence | intros [t' Ht']; discriminate].
    + split; [intros _ | discriminate].
      rewrite at_index_0_cons. simpl. unfold back.
      destruct (last _) eqn:Hl; [eexists; reflexivity|].
      apply last_None in Hl. apply (f_equal length) in Hl.
      rewrite computePtexIndices_length in Hl. discriminate.
  - intros Hl. apply Hnil; assumption.
  - intros ty so. discriminate.
  - reflexivity.
  - apply (Hnil (Clear t)); [exact Hc | reflexivity].
  - apply (Hnil (Clear t)); [exact Hc | reflexivity].
Qed.


(** C8: when the number of Ptex faces fits an [int], the indices computed
    for a base level never decrease from one entry to the next, their last
    entry is the sum over the faces of 1 for a face of regular valence and
    of the vertex count otherwise, and [GetNumPtexFaces] returns that sum,
    on the first query and on the later ones. *)
Theorem ptex_indices_monotone_total (scheme : SdcType) (base : Level) (old : list Z) :
  ptexTotal scheme base ≤ INT_MAX →
  let idx := computePtexIndices scheme base old in
  length idx = S (length (faceVertLists base))
  ∧ (∀ i a b, idx !! i = Some a → idx !! S i = Some b → a ≤ b)
  ∧ last idx = Some (ptexTotal scheme base)
  ∧ (∀ t rest, _subdivType t = scheme → _levels t = base :: rest →
        _ptexIndices t = [] →
        GetNumPtexFaces t = Done (ptexTotal scheme base, with_ptexIndices idx t))
  ∧ (∀ t, _ptexIndices t = idx → GetNumPtexFaces t = Done (ptexTotal scheme base, t)).
Proof.
  intros Htot idx.
  assert (Hidx : idx = ptexOffset scheme base <$> seq 0 (S (length (faceVertLists base)))).
  { subst idx. apply computePtexIndices_offsets, Htot. }
  assert (Hlast : last idx = Some (ptexTotal scheme base)).
  { rewrite Hidx, seq_S, fmap_app. simpl. rewrite last_snoc.
    rewrite ptexOffset_total by lia. reflexivity. }
  assert (Hne : idx ≠ []).
  { intros Hn. rewrite Hn in Hlast. discriminate. }
  split; [apply computePtexIndices_length|].
  split; [|split; [exact Hlast|split]].
  - intros i a b. rewrite Hidx, !list_lookup_fmap.
    intros Ha Hb.
    destruct (seq 0 (S (length (faceVertLists base))) !! i) as [x|] eqn:Hx; [|discriminate].
    destruct (seq 0 (S (length (faceVertLists base))) !! S i) as [y|] eqn:Hy; [|discriminate].
    apply lookup_seq in Hx as [-> _]. apply lookup_seq in Hy as [-> _].
    simpl in Ha, Hb. inversion Ha; inversion Hb; subst.
    apply ptexOffset_le. lia.
  - intros t rest Hs Hl Hc. unfold GetNumPtexFaces.
    rewrite bool_decide_eq_true_2 by exact Hc.
    rewrite initializePtexIndices_eq, Hl, Hc, Hs, at_index_0_cons. simpl.
    replace (computePtexIndices scheme base []) with idx.
    2:{ rewrite Hidx. symmetry. apply computePtexIndices_offsets, Htot. }
    unfold back. rewrite Hlast. reflexivity.
  - intros t Ht. unfold GetNumPtexFaces.
    rewrite bool_decide_eq_false_2 by (rewrite Ht; exact Hne).
    simpl. unfold back. rewrite Ht, Hlast. reflexivity.
Qed.

End PtexCache.

(** C8 on the quad and the hexagon: the indices are 0, 1 and the total 7. *)
Lemma ptex_indices_monotone_total_witness :
  @ptexTotal sampleTraits TYPE_CATMARK quadHexagon ≤ INT_MAX
  ∧ @computePtexIndices sampleTraits TYPE_CATMARK quadHexagon [] = [0; 1; 7]
  ∧ last (@computePtexIndices sampleTraits TYPE_CATMARK quadHexagon [])
      = Some (@ptexTotal sampleTraits TYPE_CATMARK quadHexagon).
Proof.
  assert (Htot : @ptexTotal sampleTraits TYPE_CATMARK quadHexagon ≤ INT_MAX)
    by (vm_compute; discriminate).
  split; [exact Htot|]. split; [reflexivity|].
  exact (proj1 (proj2 (proj2
    (@ptex_indices_monotone_total sampleTraits TYPE_CATMARK quadHexagon [] Htot)))).
Defined.

(** C10 on a new refiner: its cache is empty and it has a level 0. *)
Lemma ptex_queries_need_level_0_witness :
  _ptexIndices (newTopologyRefiner TYPE_CATMARK 0) = []
  ∧ @GetNumPtexFaces sampleTraits (Clear (newTopologyRefiner TYPE_CATMARK 0))
      = Abort OutOfBounds.
Proof.
  split; [reflexivity|].
  exact (proj1 (proj2 (proj2 (proj2 (proj2 (proj2 (proj2 (proj2
    (@ptex_queries_need_level_0 sampleTraits (newTopologyRefiner TYPE_CATMARK 0) 0
       eq_refl))))))))).
Defined.

(** C7, the claim as stated fails: a cache filled from the single quad
    survives [Clear]; the next query answers 1 from it, also once a base
    level with 7 Ptex faces has been loaded. *)
Lemma Clear_leaves_stale_ptex_cache :
  ∃ t1, @GetNumPtexFaces sampleTraits (sampleRefiner oneQuad) = Done (1, t1)
      ∧ _ptexIndices (Clear t1) = [0; 1]
      ∧ @GetNumPtexFaces sampleTraits (Clear t1) = Done (1, Clear t1)
      ∧ @GetNumPtexFaces sampleTraits (with_levels [quadHexagon] (Clear t1))
          = Done (1, with_levels [quadHexagon] (Clear t1))
      ∧ @ptexTotal sampleTraits TYPE_CATMARK quadHexagon = 7.
Proof. eexists. repeat split; reflexivity. Qed.

(** C9 at a negative face index: the guard [f < size - 1] lets -1 through
    and the cache is read before its first entry; no sentinel is returned. *)
Lemma GetPtexIndex_negative_face_faults :
  @GetPtexIndex sampleTraits (-1) (sampleRefiner oneQuad) = Abort OutOfBounds
  ∧ @GetPtexIndex sampleTraits (-1) (sampleRefiner oneQuad)
      ≠ Done (-1, with_ptexIndices [0; 1] (sampleRefiner oneQuad))
  ∧ ∃ t', @GetPtexIndex sampleTraits 1 (sampleRefiner oneQuad) = Done (-1, t')
        ∧ @GetPtexIndex sampleTraits 0 (sampleRefiner oneQuad) = Done (0, t').
Proof.
  split; [reflexivity|]. split; [discriminate|].
  eexists. split; reflexivity.
Qed.

(** ** The feature-adaptive selector *)

Section SelectorProperties.
Context `{SdcTraits}.

Lemma elem_selectFace (g f : Index) (s : SparseSelector) :
  g ∈ selectedFaces (selectFace f s) ↔ g = f ∨ g ∈ selectedFaces s.
Proof. unfold selectFace; simpl. set_solver. Qed.

Lemma elem_selectFaces (gs : list Index) (s : SparseSelector) (g : Index) :
  g ∈ selectedFaces (foldl (λ s g, selectFace g s) s gs)
  ↔ g ∈ selectedFaces s ∨ g ∈ gs.
Proof.
  revert s. induction gs as [|x gs IH]; intros s; simpl.
  - rewrite elem_of_nil. tauto.
  - rewrite IH, elem_selectFace, elem_of_cons. tauto.
Qed.

Lemma elem_selectIncidentFaces level (fVerts : list Index) (s : SparseSelector) (g : Index) :
  g ∈ selectedFaces (selectIncidentFaces level fVerts s)
  ↔ g ∈ selectedFaces s ∨ ∃ v, v ∈ fVerts ∧ g ∈ getVertexFaces level v.
Proof.
  unfold selectIncidentFaces. revert s.
  induction fVerts as [|x vs IH]; intros s; simpl.
  - split; [auto | intros [Hg | (v & Hv & _)]; [exact Hg | inversion Hv]].
  - rewrite IH, elem_selectFaces. split.
    + intros [[Hg | Hg] | (v & Hv & Hg)]; [auto | right; exists x | right; exists v].
      * split; [left | exact Hg].
      * split; [right; exact Hv | exact Hg].
    + intros [Hg | (v & Hv & Hg)]; [auto|].
      apply elem_of_cons in Hv as [-> | Hv]; [auto|]. right. exists v. auto.
Qed.

(** *** The composite tag, vertex by vertex *)

Lemma composite_nonManifold level (vs : list Index) (acc : VTag) :
  _nonManifold (foldl (λ acc v, combineVTag acc (getVertexTag level v)) acc vs)
  = _nonManifold acc || existsb (λ v, _nonManifold (getVertexTag level v)) vs.
Proof.
  revert acc. induction vs as [|v vs IH]; intros acc; simpl.
  - rewrite orb_false_r. reflexivity.
  - rewrite IH. simpl. rewrite orb_assoc. reflexivity.
Qed.

Lemma composite_rule_mask level (mask : Z) (vs : list Index) (acc : VTag) :
  Z.land (_rule (foldl (λ acc v, combineVTag acc (getVertexTag level v)) acc vs)) mask = 0
  ↔ Z.land (_rule acc) mask = 0
    ∧ Forall (λ v, Z.land (_rule (getVertexTag level v)) mask = 0) vs.
Proof.
  revert acc. induction vs as [|v vs IH]; intros acc; simpl.
  - split; [intros Ha; split; [exact Ha | constructor] | intros [Ha _]; exact Ha].
  - rewrite IH. simpl. rewrite Z.land_lor_distr_l, Z.lor_eq_0_iff, Forall_cons.
    tauto.
Qed.

Lemma composite_no_smooth level (vs : list Index) :
  bool_decide (Z.land (_rule (getFaceCompositeVTag level vs)) RULE_SMOOTH = 0)
  = forallb (λ v, bool_decide (Z.land (_rule (getVertexTag level v)) RULE_SMOOTH = 0)) vs.
Proof.
  apply eq_true_iff_eq. unfold getFaceCompositeVTag.
  rewrite bool_decide_eq_true, composite_rule_mask, forallb_forall.
  simpl. rewrite Z.land_0_l, Forall_forall. split.
  - intros [_ Hall] v Hv. apply bool_decide_eq_true, Hall, list_elem_of_In, Hv.
  - intros Hall. split; [reflexivity|]. intros v Hv.
    apply list_elem_of_In, Hall in Hv. apply bool_decide_eq_true in Hv. exact Hv.
Qed.

(** The chain of tests of the source is the isolation condition. *)
Lemma quadNeedsIsolation_condition level (f : Index) :
  let tag := getFaceCompositeVTag level (getFaceVertices level f) in
  negb (_incomplete tag) && quadNeedsIsolation tag = quadSelectCondition level f.
Proof.
  intros tag. unfold quadSelectCondition, quadNeedsIsolation. fold tag. f_equal.
  rewrite <- composite_no_smooth. fold tag.
  replace (existsb _ _) with (_nonManifold tag).
  2:{ unfold tag, getFaceCompositeVTag. rewrite composite_nonManifold. reflexivity. }
  destruct (_xordinary tag), (_semiSharp tag),
    (bool_decide (Z.land (_rule tag) RULE_DART ≠ 0)), (_nonManifold tag),
    (bool_decide (Z.land (_rule tag) RULE_SMOOTH = 0)); reflexivity.
Qed.

Lemma selectorStep_quad level (s : SparseSelector) (f : Index) :
  arraySize (getFaceVertices level f) = 4 →
  selectorStep level s f = if quadSelectCondition level f then selectFace f s else s.
Proof.
  intros Hq. unfold selectorStep.
  rewrite bool_decide_eq_false_2 by (intros Hne; apply Hne, Hq).
  rewrite <- quadNeedsIsolation_condition. simpl.
  destruct (_incomplete _); simpl; reflexivity.
Qed.

Lemma selectorStep_nonquad level (s : SparseSelector) (f : Index) :
  arraySize (getFaceVertices level f) ≠ 4 →
  selectorStep level s f = selectIncidentFaces level (getFaceVertices level f) s.
Proof.
  intros Hq. unfold selectorStep. rewrite bool_decide_eq_true_2 by exact Hq. reflexivity.
Qed.

Lemma elem_selectorStep level (s : SparseSelector) (face g : Index) :
  g ∈ selectedFaces (selectorStep level s face)
  ↔ g ∈ selectedFaces s ∨ stepSelects level face g.
Proof.
  unfold stepSelects.
  destruct (decide (arraySize (getFaceVertices level face) = 4)) as [Hq|Hq].
  - rewrite selectorStep_quad by exact Hq.
    destruct (quadSelectCondition level face).
    + rewrite elem_selectFace. split.
      * intros [-> | Hg]; auto.
      * intros [Hg | [[Hne _] | (_ & -> & _)]]; auto. contradiction.
    + split; [auto|]. intros [Hg | [[Hne _] | (_ & _ & Hc)]]; auto;
        [contradiction | discriminate].
  - rewrite selectorStep_nonquad, elem_selectIncidentFaces by exact Hq. split.
    + intros [Hg | Hex]; auto.
    + intros [Hg | [[_ Hex] | (Heq & _)]]; auto. contradiction.
Qed.

(** A pass over a list of faces selects what was selected before and what
    the examination of one of the faces adds. *)
Lemma elem_selector_pass level (faces : list Index) (s : SparseSelector) (g : Index) :
  g ∈ selectedFaces (foldl (selectorStep level) s faces)
  ↔ g ∈ selectedFaces s ∨ ∃ face, face ∈ faces ∧ stepSelects level face g.
Proof.
  revert s. induction faces as [|x faces IH]; intros s; simpl.
  - split; [auto | intros [Hg | (face & Hf & _)]; [exact Hg | inversion Hf]].
  - rewrite IH, elem_selectorStep. split.
    + intros [[Hg | Hg] | (face & Hf & Hg)]; [auto | right; exists x | right; exists face].
      * split; [left | exact Hg].
      * split; [right; exact Hf | exact Hg].
    + intros [Hg | (face & Hf & Hg)]; [auto|].
      apply elem_of_cons in Hf as [-> | Hf]; [auto|]. right. exists face. auto.
Qed.

Lemma elem_catmarkFeatureAdaptiveSelector level (s : SparseSelector) (g : Index) :
  g ∈ selectedFaces (catmarkFeatureAdaptiveSelector level s)
  ↔ g ∈ selectedFaces s
    ∨ ∃ face, 0 ≤ face < getNumFaces level ∧ stepSelects level face g.
Proof.
  unfold catmarkFeatureAdaptiveSelector. rewrite elem_selector_pass.
  setoid_rewrite elem_of_seqZ. split.
  - intros [Hg | (face & Hf & Hg)]; [auto|]. right. exists face. split; [lia | exact Hg].
  - intros [Hg | (face & Hf & Hg)]; [auto|]. right. exists face. split; [lia | exact Hg].
Qed.

End SelectorProperties.

Section SelectorClaims.
Context `{SdcTraits}.

(** C3: the examination of a face that is not a quad selects exactly the
    faces in the face lists of its vertices, on top of what was selected,
    and reads no tag; after the pass over the level all those faces are
    selected, and so are, when every face is listed at its vertices, all the
    faces that share a vertex with it, the face itself among them. *)
Theorem nonquad_selects_incident_faces (level : Level) (f : Index) :
  0 ≤ f < getNumFaces level →
  arraySize (getFaceVertices level f) ≠ 4 →
  (∀ s, selectorStep level s f
        = selectIncidentFaces level (getFaceVertices level f) s)
  ∧ (∀ s g, g ∈ selectedFaces (selectorStep level s f)
            ↔ g ∈ selectedFaces s
              ∨ ∃ v, v ∈ getFaceVertices level f ∧ g ∈ getVertexFaces level v)
  ∧ (∀ level' s, faceVertLists level' = faceVertLists level →
        vertFaces <$> vertices level' = vertFaces <$> vertices level →
        selectorStep level' s f = selectorStep level s f)
  ∧ (∀ s v g, v ∈ getFaceVertices level f → g ∈ getVertexFaces level v →
        g ∈ selectedFaces (catmarkFeatureAdaptiveSelector level s))
  ∧ (facesListedAtVertices level = true →
       (∀ s g, 0 ≤ g < getNumFaces level →
          (∃ v, v ∈ getFaceVertices level f ∧ v ∈ getFaceVertices level g) →
          g ∈ selectedFaces (catmarkFeatureAdaptiveSelector level s))
       ∧ (getFaceVertices level f ≠ [] →
          ∀ s, f ∈ selectedFaces (catmarkFeatureAdaptiveSelector level s))).
Proof.
  intros Hf Hq.
  assert (Hpass : ∀ s v g, v ∈ getFaceVertices level f → g ∈ getVertexFaces level v →
            g ∈ selectedFaces (catmarkFeatureAdaptiveSelector level s)).
  { intros s v g Hv Hg. apply elem_catmarkFeatureAdaptiveSelector. right.
    exists f. split; [exact Hf|]. left. split; [exact Hq|]. exists v. auto. }
  assert (Hshare : facesListedAtVertices level = true →
            ∀ s g, 0 ≤ g < getNumFaces level →
              (∃ v, v ∈ getFaceVertices level f ∧ v ∈ getFaceVertices level g) →
              g ∈ selectedFaces (catmarkFeatureAdaptiveSelector level s)).
  { intros Hlist s g Hg (v & Hvf & Hvg). apply (Hpass s v g Hvf).
    unfold facesListedAtVertices in Hlist. rewrite forallb_forall in Hlist.
    specialize (Hlist g). rewrite forallb_forall in Hlist.
    eapply bool_decide_eq_true_1, Hlist.
    - apply list_elem_of_In, elem_of_seqZ. lia.
    - apply list_elem_of_In, Hvg. }
  split; [intros s; apply selectorStep_nonquad, Hq|].
  split; [intros s g; rewrite selectorStep_nonquad by exact Hq;
          apply elem_selectIncidentFaces|].
  split; [|split; [exact Hpass|]].
  - intros level' s Hfaces Hverts.
    assert (Hfv : getFaceVertices level' f = getFaceVertices level f).
    { unfold getFaceVertices. rewrite Hfaces. reflexivity. }
    rewrite !selectorStep_nonquad by (rewrite ?Hfv; exact Hq).
    rewrite Hfv. unfold selectIncidentFaces.
    assert (Hvf : ∀ v, getVertexFaces level' v = getVertexFaces level v).
    { intros v. unfold getVertexFaces, lookupZ. case_bool_decide; [|reflexivity].
      rewrite <- !list_lookup_fmap, Hverts. reflexivity. }
    generalize (getFaceVertices level f) as vs. intros vs. revert s.
    induction vs as [|v vs IH]; intros s; simpl; [reflexivity|].
    rewrite Hvf. apply IH.
  - intros Hlist. split; [apply Hshare, Hlist|].
    intros Hne s. destruct (getFaceVertices level f) as [|v vs] eqn:Hvs; [congruence|].
    apply (Hshare Hlist s f Hf). exists v. rewrite Hvs. split; left.
Qed.

(** C2 (as amended): the examination of a quad adds the quad to the
    selection exactly when the isolation condition holds, and changes
    nothing otherwise, in particular when the composite tag is incomplete;
    after the pass over the level the quad is selected exactly when it was
    selected before, or the condition holds, or the neighbour expansion of a
    face that is not a quad reaches it. *)
Theorem quad_selected_iff (level : Level) (f : Index) :
  0 ≤ f < getNumFaces level →
  arraySize (getFaceVertices level f) = 4 →
  (∀ s, selectorStep level s f
        = if quadSelectCondition level f then selectFace f s else s)
  ∧ (_incomplete (getFaceCompositeVTag level (getFaceVertices level f)) = true →
     ∀ s, selectorStep level s f = s)
  ∧ (∀ s, f ∈ selectedFaces (catmarkFeatureAdaptiveSelector level s)
          ↔ f ∈ selectedFaces s
            ∨ quadSelectCondition level f = true
            ∨ nearNonQuad level f)
  ∧ (f ∈ featureSelection level
     ↔ quadSelectCondition level f = true ∨ nearNonQuad level f).
Proof.
  intros Hf Hq.
  assert (Hpass : ∀ s, f ∈ selectedFaces (catmarkFeatureAdaptiveSelector level s)
            ↔ f ∈ selectedFaces s ∨ quadSelectCondition level f = true
              ∨ nearNonQuad level f).
  { intros s. rewrite elem_catmarkFeatureAdaptiveSelector. unfold nearNonQuad. split.
    - intros [Hs | (face & Hface & [[Hne (v & Hv & Hg)] | (_ & <- & Hc)])]; auto.
      right. right. exists face, v. auto.
    - intros [Hs | [Hc | (g & v & Hg & Hne & Hv & Hfv)]]; auto.
      + right. exists f. split; [exact Hf|]. right. auto.
      + right. exists g. split; [exact Hg|]. left. split; [exact Hne|]. exists v. auto. }
  split; [intros s; apply selectorStep_quad, Hq|].
  split; [|split; [exact Hpass|]].
  - intros Hinc s. rewrite selectorStep_quad by exact Hq.
    unfold quadSelectCondition. rewrite Hinc. reflexivity.
  - unfold featureSelection. rewrite Hpass. simpl. rewrite elem_of_empty. tauto.
Qed.

End SelectorClaims.

(** C3 on the pentagon of [pentaQuad]: the quad beside it is selected. *)
Lemma nonquad_selects_incident_faces_witness :
  0 ≤ 0 < getNumFaces pentaQuad
  ∧ arraySize (getFaceVertices pentaQuad 0) ≠ 4
  ∧ facesListedAtVertices pentaQuad = true
  ∧ 1 ∈ selectedFaces (@catmarkFeatureAdaptiveSelector sampleTraits pentaQuad newSelector)
  ∧ 0 ∈ selectedFaces (@catmarkFeatureAdaptiveSelector sampleTraits pentaQuad newSelector).
Proof.
  assert (Hf : 0 ≤ 0 < getNumFaces pentaQuad) by (unfold getNumFaces; simpl; lia).
  assert (Hq : arraySize (getFaceVertices pentaQuad 0) ≠ 4) by (vm_compute; discriminate).
  assert (Hl : facesListedAtVertices pentaQuad = true) by reflexivity.
  pose proof (@nonquad_selects_incident_faces sampleTraits pentaQuad 0 Hf Hq)
    as (_ & _ & _ & Hpass & Hshare).
  split; [exact Hf|]. split; [exact Hq|]. split; [exact Hl|]. split.
  - apply (Hpass newSelector 0 1); vm_compute.
    + apply list_elem_of_here.
    + apply list_elem_of_further, list_elem_of_here.
  - apply (proj2 (Hshare Hl)). vm_compute. discriminate.
Defined.

(** C2 on the single smooth quad: it is not selected. *)
Lemma quad_selected_iff_witness :
  0 ≤ 0 < getNumFaces oneQuad
  ∧ arraySize (getFaceVertices oneQuad 0) = 4
  ∧ (∀ s, @selectorStep sampleTraits oneQuad s 0 = s).
Proof.
  assert (Hf : 0 ≤ 0 < getNumFaces oneQuad) by (unfold getNumFaces; simpl; lia).
  assert (Hq : arraySize (getFaceVertices oneQuad 0) = 4) by reflexivity.
  split; [exact Hf|]. split; [exact Hq|].
  exact (proj1 (@quad_selected_iff sampleTraits oneQuad 0 Hf Hq)).
Defined.

(** C2, the claim as stated fails: the quad of [pentaQuad] has four smooth,
    regular, manifold, complete vertices, so the condition of the claim is
    false, and it is selected all the same, by the pentagon it touches. *)
Lemma quad_beside_pentagon_is_selected :
  0 ≤ 1 < getNumFaces pentaQuad
  ∧ arraySize (getFaceVertices pentaQuad 1) = 4
  ∧ @quadSelectCondition sampleTraits pentaQuad 1 = false
  ∧ 1 ∈ @featureSelection sampleTraits pentaQuad.
Proof.
  split; [unfold getNumFaces; simpl; lia|].
  split; [reflexivity|]. split; [reflexivity|].
  vm_compute. reflexivity.
Qed.

(** ** The refinement drivers *)

Lemma bind_Done {A B : Type} (a : A) (k : A → outcome B) : (Done a ≫= k) = k a.
Proof. reflexivity. Qed.

Lemma bind_Abort {A B : Type} (e : Fault) (k : A → outcome B) : (Abort e ≫= k) = Abort e.
Proof. reflexivity. Qed.

(** Case analysis on the first action of a run that is known to finish. *)
Ltac bind_case Hrun :=
  match type of Hrun with
  | (?m ≫= _) = Done _ =>
      destruct m eqn:?;
      [rewrite bind_Done in Hrun | rewrite bind_Abort in Hrun; discriminate Hrun]
  end.

Lemma bind_ext {A B : Type} (m : outcome A) (k1 k2 : A → outcome B) :
  (∀ a, k1 a = k2 a) → (m ≫= k1) = (m ≫= k2).
Proof. intros Hk. destruct m; [apply Hk | reflexivity]. Qed.

Lemma at_index_Done {A : Type} (v : list A) (i : Z) (a : A) :
  0 ≤ i → v !! Z.to_nat i = Some a → at_index v i = Done a.
Proof.
  intros Hi Ha. unfold at_index. rewrite bool_decide_eq_true_2 by exact Hi.
  rewrite Ha. reflexivity.
Qed.

Lemma at_index_in_range {A : Type} (v : list A) (i : Z) :
  0 ≤ i < Z.of_nat (length v) → ∃ a, v !! Z.to_nat i = Some a ∧ at_index v i = Done a.
Proof.
  intros Hi. destruct (lookup_lt_is_Some_2 v (Z.to_nat i)) as [a Ha]; [lia|].
  exists a. split; [exact Ha | apply at_index_Done; [lia | exact Ha]].
Qed.

Lemma vresize_Done {A : Type} (dflt : A) (n : Z) (v : list A) :
  0 ≤ n → vresize dflt n v = Done (resize (Z.to_nat n) dflt v).
Proof. intros Hn. unfold vresize. rewrite bool_decide_eq_true_2 by exact Hn. reflexivity. Qed.

Lemma add32_succ (n : Z) : 0 ≤ n < INT_MAX → add32 n 1 = n + 1.
Proof. intros Hn. unfold add32. apply wrap32_small. unfold INT_MAX in *. lia. Qed.

Lemma seqZ_succ (i : Z) (k : nat) :
  seqZ i (Z.of_nat (S k)) = i :: seqZ (i + 1) (Z.of_nat k).
Proof.
  rewrite seqZ_cons by lia. f_equal. f_equal; lia.
Qed.

Section DriverProperties.
Context `{SdcTraits} `{VtrRefine}.

(** The uniform loop over [i .. i + k - 1] on vectors of [i + k] levels and
    [i + k - 1] refinements: it finishes, refines once per index with the
    options of that index, and keeps the sizes, the flags and level 0. *)
Lemma uniformLoop_spec (maxLevel : Z) (fullTopology : bool) (k : nat) :
  ∀ (i : Z) (opts : RefineOptions) (t : TopologyRefiner) (calls : list RefineCall),
    1 ≤ i →
    Z.of_nat (length (_levels t)) = i + Z.of_nat k →
    Z.of_nat (length (_refinements t)) = i + Z.of_nat k - 1 →
    ∃ t', uniformLoop (seqZ i (Z.of_nat k)) maxLevel fullTopology opts t calls
            = Done (t', calls ++
                 ((λ j, (j, mkOptions (_sparse opts)
                                      (if fullTopology then false
                                       else bool_decide (j = maxLevel))))
                    <$> seqZ i (Z.of_nat k)))
          ∧ length (_levels t') = length (_levels t)
          ∧ length (_refinements t') = length (_refinements t)
          ∧ _isUniform t' = _isUniform t
          ∧ _maxLevel t' = _maxLevel t
          ∧ _levels t' !! 0%nat = _levels t !! 0%nat.
Proof.
  induction k as [|k IH]; intros i opts t calls Hi Hls Hrs.
  - exists t. rewrite seqZ_nil by lia. simpl. rewrite app_nil_r. auto 10.
  - rewrite seqZ_succ. cbn [uniformLoop fmap list_fmap].
    destruct (at_index_in_range (_refinements t) (i - 1)) as (r & _ & ->); [lia|].
    rewrite bind_Done.
    destruct (at_index_in_range (_levels t) (i - 1)) as (p & _ & ->); [lia|].
    rewrite bind_Done.
    destruct (at_index_in_range (_levels t) i) as (c & _ & ->); [lia|].
    rewrite bind_Done.
    match goal with |- context [uniformLoop _ _ _ ?o ?u ?cs] =>
      set (t1 := u);
      assert (Hl1 : length (_levels t1) = length (_levels t))
        by (unfold t1; simpl; apply length_insert);
      assert (Hr1 : length (_refinements t1) = length (_refinements t))
        by (unfold t1; simpl; apply length_insert);
      assert (Hb1 : _levels t1 !! 0%nat = _levels t !! 0%nat)
        by (unfold t1; simpl; apply list_lookup_insert_ne; lia);
      destruct (IH (i + 1) o t1 cs) as (t' & Hrun & Hl & Hr & Hu & Hm & Hbase)
    end; [lia | lia | lia |].
    exists t'. rewrite Hrun, <- app_assoc.
    split; [reflexivity|].
    split; [congruence|]. split; [congruence|].
    split; [exact Hu|]. split; [exact Hm|]. congruence.
Qed.

(** *** The adaptive loop *)

Lemma adaptiveLevelFrom_unroll (ty : SdcType) (so : SdcOptions) (p : Level) (i : Z) (k : nat) :
  adaptiveLevelFrom ty so p i (S k)
  = adaptiveLevelFrom ty so (adaptiveChild ty so i p) (i + 1) k.
Proof.
  induction k as [|k IH].
  - simpl. rewrite Z.add_0_r. reflexivity.
  - change (adaptiveLevelFrom ty so p i (S (S k)))
      with (adaptiveChild ty so (i + Z.of_nat (S k)) (adaptiveLevelFrom ty so p i (S k))).
    rewrite IH. simpl. f_equal. lia.
Qed.

(** The first thing an iteration does to the options makes the value of
    [_faceTopologyOnly] it started with irrelevant. *)
Lemma adaptiveLoop_overrides_faceTopologyOnly (idxs : list Z) (sparse a b : bool)
    (t : TopologyRefiner) (calls : list RefineCall) :
  adaptiveLoop idxs (mkOptions sparse a) t calls
  = adaptiveLoop idxs (mkOptions sparse b) t calls.
Proof. destruct idxs; reflexivity. Qed.

(** The adaptive loop over [i .. i + n - 1], entered with [i + n] levels,
    [i + n - 1] refinements, [maxLevel = i + n - 1] and [p] at level [i - 1]:
    it finishes after [K ≤ n] refine steps, all with the adaptive options;
    [K] is [n], or the first count at which the selection over the level
    reached is empty; the vectors are cut to [i + K] and [i + K - 1]. *)
Lemma adaptiveLoop_spec (n : nat) :
  ∀ (i : Z) (opts : RefineOptions) (t : TopologyRefiner) (calls : list RefineCall)
    (p : Level),
    1 ≤ i →
    i + Z.of_nat n ≤ INT_MAX →
    Z.of_nat (length (_levels t)) = i + Z.of_nat n →
    Z.of_nat (length (_refinements t)) = i + Z.of_nat n - 1 →
    _maxLevel t = i + Z.of_nat n - 1 →
    _levels t !! Z.to_nat (i - 1) = Some p →
    _sparse opts = true →
    ∃ (K : nat) (t' : TopologyRefiner),
      (K ≤ n)%nat
      ∧ adaptiveLoop (seqZ i (Z.of_nat n)) opts t calls
          = Done (t', calls ++ ((λ j, (j, adaptiveOptions)) <$> seqZ i (Z.of_nat K)))
      ∧ _maxLevel t' = i + Z.of_nat K - 1
      ∧ Z.of_nat (length (_levels t')) = i + Z.of_nat K
      ∧ Z.of_nat (length (_refinements t')) = i + Z.of_nat K - 1
      ∧ _isUniform t' = _isUniform t
      ∧ (∀ j, (j < Z.to_nat (i - 1))%nat → _levels t' !! j = _levels t !! j)
      ∧ (∀ k, (k ≤ K)%nat →
           _levels t' !! (Z.to_nat (i - 1) + k)%nat
           = Some (adaptiveLevelFrom (_subdivType t) (_subdivOptions t) p i k))
      ∧ (∀ k, (k < K)%nat →
           featureSelection
             (adaptiveLevelFrom (_subdivType t) (_subdivOptions t) p i k) ≠ ∅)
      ∧ ((K < n)%nat →
           featureSelection
             (adaptiveLevelFrom (_subdivType t) (_subdivOptions t) p i K) = ∅).
Proof.
  induction n as [|n IH]; intros i opts t calls p Hi Hmax Hls Hrs Hm Hp Hsp.
  - exists 0%nat, t. rewrite seqZ_nil by lia. simpl. rewrite app_nil_r.
    split; [lia|]. split; [reflexivity|]. split; [lia|]. split; [lia|].
    split; [lia|]. split; [reflexivity|]. split; [auto|].
    split; [|split; intros; lia].
    intros k Hk. replace k with 0%nat by lia. rewrite Nat.add_0_r. exact Hp.
  - rewrite seqZ_succ. cbn [adaptiveLoop].
    rewrite (at_index_Done (_levels t) (i - 1) p) by (lia || exact Hp).
    rewrite bind_Done.
    destruct (at_index_in_range (_levels t) i) as (c & _ & ->); [lia|].
    rewrite bind_Done.
    destruct (at_index_in_range (_refinements t) (i - 1)) as (r & _ & ->); [lia|].
    rewrite bind_Done. rewrite Hsp.
    change (mkOptions true false) with adaptiveOptions.
    change (refine _ p adaptiveOptions)
      with (adaptiveChild (_subdivType t) (_subdivOptions t) i p).
    destruct (isSelectionEmpty (catmarkFeatureAdaptiveSelector p newSelector)) eqn:Hsel;
      cbn [negb].
    + (* the selection is empty: truncate and leave the loop *)
      apply bool_decide_eq_true in Hsel.
      replace (i - 1 + 1) with i in * by lia.
      rewrite add32_succ by (unfold INT_MAX in *; lia).
      replace (i - 1 + 1) with i by lia.
      rewrite vresize_Done by lia. rewrite bind_Done.
      rewrite vresize_Done by lia. rewrite bind_Done.
      eexists 0%nat, _. split; [lia|]. split.
      { rewrite seqZ_nil by lia. simpl. rewrite app_nil_r. reflexivity. }
      simpl. rewrite !length_resize.
      split; [lia|]. split; [lia|]. split; [lia|]. split; [reflexivity|].
      split; [|split; [|split; [intros; lia|]]].
      * intros j Hj. rewrite lookup_resize by lia. reflexivity.
      * intros k Hk. replace k with 0%nat by lia. rewrite Nat.add_0_r.
        rewrite lookup_resize by lia. exact Hp.
      * intros _. exact Hsel.
    + (* something is selected: refine and go on *)
      apply bool_decide_eq_false in Hsel.
      match goal with |- context [adaptiveLoop _ ?o ?u ?cs] =>
        set (t1 := u);
        assert (Hl1 : length (_levels t1) = length (_levels t))
          by (unfold t1; simpl; apply length_insert);
        assert (Hr1 : length (_refinements t1) = length (_refinements t))
          by (unfold t1; simpl; apply length_insert);
        assert (Hlk1 : ∀ j, j ≠ Z.to_nat i → _levels t1 !! j = _levels t !! j)
          by (intros j Hj; unfold t1; simpl; apply list_lookup_insert_ne; lia);
        assert (Hp1 : _levels t1 !! Z.to_nat (i + 1 - 1)
                      = Some (adaptiveChild (_subdivType t) (_subdivOptions t) i p))
          by (unfold t1; simpl; replace (i + 1 - 1) with i by lia;
              apply list_lookup_insert_eq; lia);
        destruct (IH (i + 1) o t1 cs _ ltac:(lia) ltac:(lia) ltac:(lia) ltac:(lia)
                     ltac:(unfold t1; simpl; lia) Hp1 eq_refl)
          as (K & t' & HK & Hrun & HmK & HlK & HrK & Hu & Hlow & Hlev & Hne & Hemp)
      end.
      change (_subdivType t1) with (_subdivType t) in *.
      change (_subdivOptions t1) with (_subdivOptions t) in *.
      exists (S K), t'. split; [lia|]. split.
      { rewrite Hrun, <- app_assoc, seqZ_succ. reflexivity. }
      split; [lia|]. split; [lia|]. split; [lia|]. split; [exact Hu|].
      split; [|split; [|split]].
      * intros j Hj. rewrite Hlow by lia. apply Hlk1. lia.
      * intros [|k] Hk.
        -- rewrite Nat.add_0_r, Hlow by lia. rewrite Hlk1 by lia. exact Hp.
        -- rewrite adaptiveLevelFrom_unroll, <- Hlev by lia. f_equal. lia.
      * intros [|k] Hk; [exact Hsel|].
        rewrite adaptiveLevelFrom_unroll. apply Hne. lia.
      * intros HKn. rewrite adaptiveLevelFrom_unroll. apply Hemp. lia.
Qed.

(** [RefineAdaptive] as a whole: the number [K] of refine steps, the shape
    of the hierarchy it leaves and the calls it makes. *)
Lemma RefineAdaptive_run (t : TopologyRefiner) (depth : Z) (fullTopology : bool)
    (base : Level) (rest : list Level) :
  _levels t = base :: rest →
  getNumVertices base > 0 →
  _subdivType t = TYPE_CATMARK →
  0 ≤ depth < INT_MAX →
  ∃ (K : Z) (t' : TopologyRefiner),
    0 ≤ K ≤ depth
    ∧ RefineAdaptive depth fullTopology t = Done (t', adaptiveCalls K)
    ∧ _isUniform t' = false
    ∧ _maxLevel t' = K
    ∧ Z.of_nat (length (_levels t')) = K + 1
    ∧ Z.of_nat (length (_refinements t')) = K
    ∧ (∀ k, 0 ≤ k ≤ K → _levels t' !! Z.to_nat k = Some (adaptiveLevel t base k))
    ∧ (∀ k, 0 ≤ k < K → featureSelection (adaptiveLevel t base k) ≠ ∅)
    ∧ (K < depth → featureSelection (adaptiveLevel t base K) = ∅).
Proof.
  intros Hl Hv Hs Hd. unfold RefineAdaptive.
  rewrite Hl, at_index_0_cons, bind_Done.
  rewrite (bool_decide_eq_true_2 _ Hv), (bool_decide_eq_true_2 _ Hs).
  unfold assert. rewrite !bind_Done.
  rewrite add32_succ by exact Hd.
  rewrite vresize_Done by lia. rewrite bind_Done.
  rewrite vresize_Done by lia. rewrite bind_Done.
  match goal with |- context [adaptiveLoop _ ?o ?u ?cs] =>
    destruct (adaptiveLoop_spec (Z.to_nat depth) 1 o u cs base)
      as (K & t' & HK & Hrun & Hm & Hlen & Hrlen & Hu & _ & Hlev & Hne & Hemp)
  end.
  - lia.
  - lia.
  - simpl. rewrite length_resize. lia.
  - simpl. rewrite length_resize. lia.
  - simpl. lia.
  - simpl. rewrite Hl.
    replace (Z.to_nat (depth + 1)) with (S (Z.to_nat depth)) by lia. reflexivity.
  - reflexivity.
  - rewrite Z2Nat.id in Hrun by lia. simpl in Hu, Hlev, Hne, Hemp.
    exists (Z.of_nat K), t'. split; [lia|].
    split; [exact Hrun|]. split; [exact Hu|]. split; [lia|]. split; [lia|].
    split; [lia|]. unfold adaptiveLevel.
    split; [|split].
    + intros k Hk. apply (Hlev (Z.to_nat k)). lia.
    + intros k Hk. apply Hne. lia.
    + intros HKd. rewrite Nat2Z.id. apply Hemp. lia.
Qed.

(** C1: on a refiner with a base level that has vertices and the Catmark
    scheme, [RefineAdaptive] to a depth that fits an [int] finishes with the
    uniform flag cleared.  When iteration [i] is the first whose selection,
    taken over level [i - 1], is empty, it leaves [maxLevel = i - 1], [i]
    levels and [i - 1] refinements, and has called the refine step for the
    iterations [1 .. i - 1] only; when no iteration up to [depth] has an
    empty selection it leaves [maxLevel = depth], [depth + 1] levels and
    [depth] refinements.  The levels it leaves are the levels the
    selections were taken over. *)
Theorem RefineAdaptive_truncates (t : TopologyRefiner) (depth : Z) (fullTopology : bool)
    (base : Level) (rest : list Level) :
  _levels t = base :: rest →
  getNumVertices base > 0 →
  _subdivType t = TYPE_CATMARK →
  0 ≤ depth < INT_MAX →
  ∃ t' calls,
    RefineAdaptive depth fullTopology t = Done (t', calls)
    ∧ _isUniform t' = false
    ∧ (∀ k, 0 ≤ k ≤ _maxLevel t' →
         _levels t' !! Z.to_nat k = Some (adaptiveLevel t base k))
    ∧ (∀ i, 1 ≤ i ≤ depth →
         (∀ j, 1 ≤ j < i → featureSelection (adaptiveLevel t base (j - 1)) ≠ ∅) →
         featureSelection (adaptiveLevel t base (i - 1)) = ∅ →
         _maxLevel t' = i - 1
         ∧ Z.of_nat (length (_levels t')) = i
         ∧ Z.of_nat (length (_refinements t')) = i - 1
         ∧ calls = adaptiveCalls (i - 1))
    ∧ ((∀ i, 1 ≤ i ≤ depth → featureSelection (adaptiveLevel t base (i - 1)) ≠ ∅) →
         _maxLevel t' = depth
         ∧ Z.of_nat (length (_levels t')) = depth + 1
         ∧ Z.of_nat (length (_refinements t')) = depth
         ∧ calls = adaptiveCalls depth).
Proof.
  intros Hl Hv Hs Hd.
  destruct (RefineAdaptive_run t depth fullTopology base rest Hl Hv Hs Hd)
    as (K & t' & HK & Hrun & Hu & Hm & Hlen & Hrlen & Hlev & Hne & Hemp).
  exists t', (adaptiveCalls K). split; [exact Hrun|]. split; [exact Hu|].
  split; [rewrite Hm; exact Hlev|]. split.
  - intros i Hi Hbefore Hempty.
    assert (HKi : K = i - 1).
    { destruct (Z.lt_trichotomy K (i - 1)) as [Hlt | [Heq | Hgt]]; [|exact Heq|].
      - exfalso. apply (Hbefore (K + 1)); [lia|].
        replace (K + 1 - 1) with K by lia. apply Hemp. lia.
      - exfalso. apply (Hne (i - 1)); [lia | exact Hempty]. }
    split; [lia|]. split; [lia|]. split; [lia|]. f_equal. lia.
  - intros Hall.
    assert (HKd : K = depth).
    { destruct (decide (K < depth)) as [Hlt|Hge]; [|lia].
      exfalso. apply (Hall (K + 1)); [lia|].
      replace (K + 1 - 1) with K by lia. apply Hemp, Hlt. }
    split; [lia|]. split; [lia|]. split; [lia|]. f_equal. lia.
Qed.

(** Whatever the refiner and the index list, the calls the adaptive loop
    adds all carry the adaptive options. *)
Lemma adaptiveLoop_calls (idxs : list Z) :
  ∀ (opts : RefineOptions) (t : TopologyRefiner) (calls : list RefineCall)
    (t' : TopologyRefiner) (calls' : list RefineCall),
    _sparse opts = true →
    adaptiveLoop idxs opts t calls = Done (t', calls') →
    ∃ new, calls' = calls ++ new
           ∧ Forall (λ c : RefineCall, c.2 = mkOptions true false) new.
Proof.
  induction idxs as [|i idxs IH]; intros opts t calls t' calls' Hsp Hrun.
  - inversion Hrun; subst. exists []. rewrite app_nil_r. split; [reflexivity | constructor].
  - cbn [adaptiveLoop] in Hrun. rewrite Hsp in Hrun.
    do 3 bind_case Hrun.
    destruct (negb _).
    + apply IH in Hrun as (new & -> & Hnew); [|reflexivity].
      exists ((i, mkOptions true false) :: new). rewrite <- app_assoc.
      split; [reflexivity | constructor; [reflexivity | exact Hnew]].
    + do 2 bind_case Hrun. inversion Hrun; subst.
      exists []. rewrite app_nil_r. split; [reflexivity | constructor].
Qed.

End DriverProperties.

(** C1 on the pentagon and the quad, refined adaptively to depth 3 with a
    refine step that answers with a smooth quad: the selection over level 0
    is not empty, the one over level 1 is, and the hierarchy stops at
    [maxLevel = 1]. *)
Lemma RefineAdaptive_truncates_witness :
  _levels (sampleRefiner pentaQuad) = [pentaQuad]
  ∧ getNumVertices pentaQuad > 0
  ∧ 0 ≤ 3 < INT_MAX
  ∧ ∃ t' calls,
      @RefineAdaptive sampleTraits sampleRefine 3 true (sampleRefiner pentaQuad)
        = Done (t', calls)
      ∧ _isUniform t' = false
      ∧ _maxLevel t' = 1
      ∧ Z.of_nat (length (_levels t')) = 2
      ∧ Z.of_nat (length (_refinements t')) = 1
      ∧ calls = [(1, mkOptions true false)].
Proof.
  assert (Hv : getNumVertices pentaQuad > 0) by reflexivity.
  assert (Hd : 0 ≤ 3 < INT_MAX) by (unfold INT_MAX; lia).
  split; [reflexivity|]. split; [exact Hv|]. split; [exact Hd|].
  destruct (@RefineAdaptive_truncates sampleTraits sampleRefine (sampleRefiner pentaQuad)
              3 true pentaQuad [] eq_refl Hv eq_refl Hd)
    as (t' & calls & Hrun & Hu & _ & Hfirst & _).
  destruct (Hfirst 2) as (Hm & Hl & Hr & Hc).
  - lia.
  - intros j Hj. replace j with 1 by lia. vm_compute. discriminate.
  - vm_compute. reflexivity.
  - exists t', calls. split; [exact Hrun|]. split; [exact Hu|].
    split; [exact Hm|]. split; [exact Hl|]. split; [exact Hr|]. exact Hc.
Defined.

(** ** Further properties of the hierarchy owner *)

Lemma refiner_eq (t u : TopologyRefiner) :
  _subdivType t = _subdivType u → _subdivOptions t = _subdivOptions u →
  _isUniform t = _isUniform u → _maxLevel t = _maxLevel u →
  _levels t = _levels u → _refinements t = _refinements u →
  _ptexIndices t = _ptexIndices u → t = u.
Proof. destruct t, u; simpl; intros; subst; reflexivity. Qed.

Lemma Unrefine_eq (t : TopologyRefiner) :
  Unrefine t = with_refinements [] (with_levels (take 1 (_levels t)) t).
Proof.
  unfold Unrefine. destruct t as [ty so u m ls rs ps]; simpl.
  destruct ls as [|base rest]; case_bool_decide; simpl in *; try congruence.
  - reflexivity.
  - rewrite resize_0, take_0. reflexivity.
Qed.

(** X1: [Unrefine] and [Clear] are idempotent, and whichever of the two
    comes second, a [Clear] in the sequence leaves the cleared refiner. *)
Theorem Unrefine_Clear_compose (t : TopologyRefiner) :
  Unrefine (Unrefine t) = Unrefine t
  ∧ Clear (Clear t) = Clear t
  ∧ Unrefine (Clear t) = Clear t
  ∧ Clear (Unrefine t) = Clear t.
Proof.
  rewrite !Unrefine_eq. repeat split; apply refiner_eq; try reflexivity.
  simpl. rewrite take_take. reflexivity.
Qed.

Section DriverFaults.
Context `{SdcTraits} `{VtrRefine}.

Lemma vresize_negative {A : Type} (dflt : A) (n : Z) (v : list A) :
  n < 0 → vresize dflt n v = Abort LengthError.
Proof. intros Hn. unfold vresize. rewrite bool_decide_eq_false_2 by lia. reflexivity. Qed.

Lemma vresize_fault {A : Type} (dflt : A) (n : Z) (v : list A) (e : Fault) :
  vresize dflt n v = Abort e → e = LengthError.
Proof. unfold vresize. case_bool_decide; congruence. Qed.

Lemma assert_false_2 (P : Prop) `{Decision P} :
  ¬ P → assert (bool_decide P) = Abort AssertionFailed.
Proof. intros HP. rewrite bool_decide_eq_false_2 by exact HP. reflexivity. Qed.

Lemma assert_true_2 (P : Prop) `{Decision P} : P → assert (bool_decide P) = Done tt.
Proof. intros HP. rewrite bool_decide_eq_true_2 by exact HP. reflexivity. Qed.

Lemma drivers_need_base_vertices (t : TopologyRefiner) (depth : Z) (fullTopology : bool)
    (base : Level) (rest : list Level) :
  _levels t = base :: rest → getNumVertices base = 0 →
  RefineUniform depth fullTopology t = Abort AssertionFailed
  ∧ RefineAdaptive depth fullTopology t = Abort AssertionFailed.
Proof.
  unfold RefineUniform, RefineAdaptive.
  intros -> Hv. rewrite at_index_0_cons, !bind_Done.
  assert (Hnv : ¬ getNumVertices base > 0) by lia.
  rewrite (assert_false_2 _ Hnv). split; reflexivity.
Qed.

(** X2: how the two drivers refuse to run on a refiner that has a level
    0.  With a base level that has no vertex, or with a scheme other than
    Catmark, the assertion fails; with these in order and a negative depth,
    one of the two resizes is asked for a negative size.  In none of these
    cases is a refiner returned. *)
Theorem refinement_drivers_faults (t : TopologyRefiner) (depth : Z) (fullTopology : bool) :
  (∀ base rest, _levels t = base :: rest → getNumVertices base = 0 →
       RefineUniform depth fullTopology t = Abort AssertionFailed
       ∧ RefineAdaptive depth fullTopology t = Abort AssertionFailed)
  ∧ (∀ base rest, _levels t = base :: rest → getNumVertices base > 0 →
       _subdivType t ≠ TYPE_CATMARK →
       RefineUniform depth fullTopology t = Abort AssertionFailed
       ∧ RefineAdaptive depth fullTopology t = Abort AssertionFailed)
  ∧ (∀ base rest, _levels t = base :: rest → getNumVertices base > 0 →
       _subdivType t = TYPE_CATMARK → depth < 0 →
       RefineUniform depth fullTopology t = Abort LengthError
       ∧ RefineAdaptive depth fullTopology t = Abort LengthError).
Proof.
  unfold RefineUniform, RefineAdaptive. split; [|split].
  - intros base rest Hl Hv.
    apply (drivers_need_base_vertices t depth fullTopology base rest Hl Hv).
  - intros base rest -> Hv Hs. rewrite at_index_0_cons, !bind_Done.
    rewrite (assert_true_2 _ Hv), !bind_Done. rewrite (assert_false_2 _ Hs).
    split; reflexivity.
  - intros base rest -> Hv Hs Hd. rewrite at_index_0_cons, !bind_Done.
    rewrite (assert_true_2 _ Hv), !bind_Done. rewrite (assert_true_2 _ Hs), !bind_Done.
    split;
      (destruct (vresize emptyLevel _ _) as [ls|e] eqn:Hls;
       [rewrite bind_Done, vresize_negative by exact Hd; reflexivity
       |apply vresize_fault in Hls as ->; reflexivity]).
Qed.

(** X3: the refiner the constructor builds has one level without vertices,
    no refinement and an empty cache.  Until level 0 is loaded the two
    drivers stop at their first assertion; the hierarchy has no Ptex face,
    every face index from 0 on gets the sentinel, and [Unrefine] changes
    nothing. *)
Theorem new_refiner_needs_base_level (schemeType : SdcType) (schemeOptions : SdcOptions)
    (depth : Z) (fullTopology : bool) (f : Index) :
  let t := newTopologyRefiner schemeType schemeOptions in
  _levels t = [emptyLevel] ∧ _refinements t = [] ∧ _ptexIndices t = []
  ∧ _isUniform t = true ∧ _maxLevel t = 0
  ∧ RefineUniform depth fullTopology t = Abort AssertionFailed
  ∧ RefineAdaptive depth fullTopology t = Abort AssertionFailed
  ∧ answer (GetNumPtexFaces t) = Done 0
  ∧ (0 ≤ f → answer (GetPtexIndex f t) = Done (-1))
  ∧ Unrefine t = t.
Proof.
  intros t.
  assert (Hidx : computePtexIndices schemeType emptyLevel [] = [0]) by reflexivity.
  assert (Hinit : initializePtexIndices t = Done (with_ptexIndices [0] t)).
  { rewrite initializePtexIndices_eq. reflexivity. }
  do 5 (split; [reflexivity|]).
  split; [|split; [|split; [|split]]].
  - apply (drivers_need_base_vertices t depth fullTopology emptyLevel []); reflexivity.
  - apply (drivers_need_base_vertices t depth fullTopology emptyLevel []); reflexivity.
  - unfold GetNumPtexFaces. simpl. rewrite Hinit. reflexivity.
  - intros Hf. unfold GetPtexIndex. simpl. rewrite Hinit, bind_Done. simpl.
    rewrite bool_decide_eq_false_2 by lia. reflexivity.
  - rewrite Unrefine_eq. apply refiner_eq; reflexivity.
Qed.

End DriverFaults.

(** Case analysis on the first action of a finished run, keeping the
    equation of that action under the given name. *)
Ltac bind_case_as Hrun Heq :=
  match type of Hrun with
  | (?m ≫= _) = Done _ =>
      destruct m eqn:Heq;
      [rewrite bind_Done in Hrun | rewrite bind_Abort in Hrun; discriminate Hrun]
  end.

Lemma at_index_Done_inv {A : Type} (v : list A) (i : Z) (a : A) :
  at_index v i = Done a → 0 ≤ i ∧ v !! Z.to_nat i = Some a.
Proof.
  unfold at_index. case_bool_decide; [|discriminate].
  destruct (v !! Z.to_nat i); [|discriminate]. intros Ha. inversion Ha. auto.
Qed.

Lemma vresize_Done_inv {A : Type} (dflt : A) (n : Z) (v w : list A) :
  vresize dflt n v = Done w → 0 ≤ n ∧ w = resize (Z.to_nat n) dflt v.
Proof. unfold vresize. case_bool_decide; [|discriminate]. intros Hw. inversion Hw. auto. Qed.

Section Frames.
Context `{SdcTraits} `{VtrRefine}.

(** What a finished uniform loop over indices from 1 on leaves alone. *)
Lemma uniformLoop_frame (idxs : list Z) :
  ∀ (maxLevel : Z) (fullTopology : bool) (opts : RefineOptions) (t : TopologyRefiner)
    (calls : list RefineCall) (t' : TopologyRefiner) (calls' : list RefineCall),
    Forall (λ i, 1 ≤ i) idxs →
    uniformLoop idxs maxLevel fullTopology opts t calls = Done (t', calls') →
    _subdivType t' = _subdivType t ∧ _subdivOptions t' = _subdivOptions t
    ∧ _isUniform t' = _isUniform t ∧ _maxLevel t' = _maxLevel t
    ∧ _ptexIndices t' = _ptexIndices t
    ∧ _levels t' !! 0%nat = _levels t !! 0%nat.
Proof.
  induction idxs as [|i idxs IH]; intros ml ft opts t calls t' calls' Hge Hrun.
  - inversion Hrun; subst. auto 10.
  - apply Forall_cons in Hge as [Hi Hge]. cbn [uniformLoop] in Hrun.
    do 3 bind_case Hrun.
    apply IH in Hrun as (Hty & Hso & Hu & Hm & Hpt & Hl0); [|exact Hge].
    simpl in *. repeat split; try assumption.
    rewrite Hl0. apply list_lookup_insert_ne. lia.
Qed.

(** What a finished adaptive loop over indices from 1 on leaves alone. *)
Lemma adaptiveLoop_frame (idxs : list Z) :
  ∀ (opts : RefineOptions) (t : TopologyRefiner) (calls : list RefineCall)
    (t' : TopologyRefiner) (calls' : list RefineCall),
    Forall (λ i, 1 ≤ i ≤ INT_MAX) idxs →
    adaptiveLoop idxs opts t calls = Done (t', calls') →
    _subdivType t' = _subdivType t ∧ _subdivOptions t' = _subdivOptions t
    ∧ _isUniform t' = _isUniform t
    ∧ _ptexIndices t' = _ptexIndices t
    ∧ _levels t' !! 0%nat = _levels t !! 0%nat.
Proof.
  induction idxs as [|i idxs IH]; intros opts t calls t' calls' Hge Hrun.
  - inversion Hrun; subst. auto 10.
  - apply Forall_cons in Hge as [Hi Hge]. cbn [adaptiveLoop] in Hrun.
    bind_case_as Hrun Hp. do 2 bind_case Hrun.
    apply at_index_Done_inv in Hp as [_ Hp]. apply lookup_lt_Some in Hp.
    destruct (negb _).
    + apply IH in Hrun as (Hty & Hso & Hu & Hpt & Hl0); [|exact Hge].
      simpl in *. repeat split; try assumption.
      rewrite Hl0. apply list_lookup_insert_ne. lia.
    + bind_case_as Hrun Hls. bind_case Hrun. inversion Hrun; subst. simpl in *.
      apply vresize_Done_inv in Hls as [_ ->].
      repeat split.
      replace (i - 1 + 1) with i by lia.
      rewrite add32_succ by (unfold INT_MAX in *; lia).
      replace (i - 1 + 1) with i by lia.
      apply lookup_resize; lia.
Qed.

(** A finished uniform refinement changes neither the scheme nor the Ptex
    cache nor level 0. *)
Lemma RefineUniform_frame (t : TopologyRefiner) (depth : Z) (fullTopology : bool)
    (t' : TopologyRefiner) (calls : list RefineCall) :
  0 ≤ depth < INT_MAX →
  RefineUniform depth fullTopology t = Done (t', calls) →
  _subdivType t' = _subdivType t ∧ _subdivOptions t' = _subdivOptions t
  ∧ _isUniform t' = true ∧ _maxLevel t' = depth
  ∧ _ptexIndices t' = _ptexIndices t
  ∧ _levels t' !! 0%nat = _levels t !! 0%nat
  ∧ is_Some (_levels t !! 0%nat).
Proof.
  intros Hd Hrun. unfold RefineUniform in Hrun.
  bind_case_as Hrun Hl0. do 2 bind_case Hrun. bind_case_as Hrun Hls. bind_case Hrun.
  apply at_index_Done_inv in Hl0 as [_ Hl0]. simpl in Hl0.
  apply vresize_Done_inv in Hls as [_ ->].
  apply uniformLoop_frame in Hrun as (Hty & Hso & Hu & Hm & Hpt & Hb).
  2:{ apply Forall_seqZ. intros; lia. }
  simpl in *. repeat split; try assumption; [|eauto].
  rewrite Hb, add32_succ by exact Hd.
  apply lookup_resize; [lia|]. apply lookup_lt_Some in Hl0. exact Hl0.
Qed.

(** The same for a finished adaptive refinement. *)
Lemma RefineAdaptive_frame (t : TopologyRefiner) (depth : Z) (fullTopology : bool)
    (t' : TopologyRefiner) (calls : list RefineCall) :
  0 ≤ depth < INT_MAX →
  RefineAdaptive depth fullTopology t = Done (t', calls) →
  _subdivType t' = _subdivType t ∧ _subdivOptions t' = _subdivOptions t
  ∧ _isUniform t' = false
  ∧ _ptexIndices t' = _ptexIndices t
  ∧ _levels t' !! 0%nat = _levels t !! 0%nat
  ∧ is_Some (_levels t !! 0%nat).
Proof.
  intros Hd Hrun. unfold RefineAdaptive in Hrun.
  bind_case_as Hrun Hl0. do 2 bind_case Hrun. bind_case_as Hrun Hls. bind_case Hrun.
  apply at_index_Done_inv in Hl0 as [_ Hl0]. simpl in Hl0.
  apply vresize_Done_inv in Hls as [_ ->].
  apply adaptiveLoop_frame in Hrun as (Hty & Hso & Hu & Hpt & Hb).
  2:{ apply Forall_seqZ. intros; lia. }
  simpl in *. repeat split; try assumption; [|eauto].
  rewrite Hb, add32_succ by exact Hd.
  apply lookup_resize; [lia|]. apply lookup_lt_Some in Hl0. exact Hl0.
Qed.

End Frames.

Section RefinementAndQueries.
Context `{SdcTraits} `{VtrRefine}.

(** X4: [Unrefine] after a finished refinement, uniform or adaptive, gives
    back the level and refinement vectors of [Unrefine] on the refiner
    before the refinement, with the same scheme and Ptex cache; it does not
    reset [_maxLevel] and [_isUniform], which stay as the refinement set
    them. *)
Theorem Unrefine_after_refinement (t : TopologyRefiner) (depth : Z) (fullTopology : bool)
    (t' : TopologyRefiner) (calls : list RefineCall) :
  0 ≤ depth < INT_MAX →
  (RefineUniform depth fullTopology t = Done (t', calls) →
     Unrefine t' = with_maxLevel depth (with_isUniform true (Unrefine t)))
  ∧ (RefineAdaptive depth fullTopology t = Done (t', calls) →
     Unrefine t' = with_maxLevel (_maxLevel t') (with_isUniform false (Unrefine t))).
Proof.
  intros Hd. split; intros Hrun.
  - apply RefineUniform_frame in Hrun as (Hty & Hso & Hu & Hm & Hpt & Hb & [base Hbase]);
      [|exact Hd].
    rewrite !Unrefine_eq. apply refiner_eq; simpl; try assumption; try reflexivity.
    rewrite Hbase in Hb.
    destruct (_levels t') as [|b' r']; [discriminate|].
    destruct (_levels t) as [|b r]; [discriminate|].
    simpl in *. rewrite !take_0. congruence.
  - apply RefineAdaptive_frame in Hrun as (Hty & Hso & Hu & Hpt & Hb & [base Hbase]);
      [|exact Hd].
    rewrite !Unrefine_eq. apply refiner_eq; simpl; try assumption; try reflexivity.
    rewrite Hbase in Hb.
    destruct (_levels t') as [|b' r']; [discriminate|].
    destruct (_levels t) as [|b r]; [discriminate|].
    simpl in *. rewrite !take_0. congruence.
Qed.

(** The answers of the Ptex queries depend on the cache, the scheme and
    level 0 only. *)
Lemma ptex_answers_depend (t u : TopologyRefiner) (f : Index) :
  _ptexIndices u = _ptexIndices t →
  _subdivType u = _subdivType t →
  _levels u !! 0%nat = _levels t !! 0%nat →
  answer (GetPtexIndex f u) = answer (GetPtexIndex f t)
  ∧ answer (GetNumPtexFaces u) = answer (GetNumPtexFaces t).
Proof.
  intros Hpt Hty Hl0.
  assert (Hat : at_index (_levels u) 0 = at_index (_levels t) 0).
  { unfold at_index. change (Z.to_nat 0) with 0%nat. rewrite Hl0. reflexivity. }
  unfold GetPtexIndex, GetNumPtexFaces. rewrite Hpt.
  case_bool_decide as Hc.
  - rewrite !initializePtexIndices_eq, Hat, Hpt, Hty.
    destruct (at_index (_levels t) 0) as [l0|e]; [|split; reflexivity].
    unfold mret, outcome_ret. rewrite !bind_Done. simpl. split.
    + case_bool_decide; [|reflexivity].
      destruct (at_index _ f); reflexivity.
    + destruct (back _); reflexivity.
  - unfold mret, outcome_ret. rewrite !bind_Done. rewrite Hpt. split.
    + case_bool_decide; [|reflexivity].
      destruct (at_index _ f); reflexivity.
    + destruct (back _); reflexivity.
Qed.

(** X5: refinement does not disturb the Ptex queries: after a finished
    uniform or adaptive refinement the cache is what it was, and
    [GetPtexIndex] and [GetNumPtexFaces] answer as they would have before. *)
Theorem ptex_queries_survive_refinement (t : TopologyRefiner) (depth : Z)
    (fullTopology : bool) (t' : TopologyRefiner) (calls : list RefineCall) (f : Index) :
  0 ≤ depth < INT_MAX →
  RefineUniform depth fullTopology t = Done (t', calls)
  ∨ RefineAdaptive depth fullTopology t = Done (t', calls) →
  _ptexIndices t' = _ptexIndices t
  ∧ answer (GetPtexIndex f t') = answer (GetPtexIndex f t)
  ∧ answer (GetNumPtexFaces t') = answer (GetNumPtexFaces t).
Proof.
  intros Hd [Hrun | Hrun].
  - apply RefineUniform_frame in Hrun as (Hty & _ & _ & _ & Hpt & Hb & _); [|exact Hd].
    split; [exact Hpt|]. apply ptex_answers_depend; assumption.
  - apply RefineAdaptive_frame in Hrun as (Hty & _ & _ & Hpt & Hb & _); [|exact Hd].
    split; [exact Hpt|]. apply ptex_answers_depend; assumption.
Qed.

End RefinementAndQueries.

Section PtexQueries.
Context `{SdcTraits}.

Lemma computePtexIndices_nonempty scheme level (old : list Z) :
  computePtexIndices scheme level old ≠ [].
Proof.
  intros Hn. apply (f_equal length) in Hn.
  rewrite computePtexIndices_length in Hn. discriminate.
Qed.

(** A Ptex query that finishes hands back the refiner with a non-empty
    cache and nothing else changed, unchanged altogether when the cache was
    filled already. *)
Lemma ptex_query_state (t t' : TopologyRefiner) :
  (if bool_decide (_ptexIndices t = []) then initializePtexIndices t else mret t) = Done t' →
  _ptexIndices t' ≠ []
  ∧ t' = with_ptexIndices (_ptexIndices t') t
  ∧ (_ptexIndices t ≠ [] → t' = t).
Proof.
  case_bool_decide as Hc.
  - rewrite initializePtexIndices_eq. intros Hrun. bind_case Hrun.
    inversion Hrun; subst. simpl.
    split; [apply computePtexIndices_nonempty|]. split; [reflexivity | contradiction].
  - intros Hrun. inversion Hrun; subst.
    split; [exact Hc|]. split; [destruct t'; reflexivity | reflexivity].
Qed.

(** X6: the lazy initialisation happens once.  A finished Ptex query leaves
    the cache filled and nothing else changed, and asking again, either
    query, on the refiner it hands back reads that cache: the same question
    gets the same answer and the refiner is handed back as it is. *)
Theorem ptex_queries_settle (t t' : TopologyRefiner) (f : Index) (n : Z) :
  GetNumPtexFaces t = Done (n, t') ∨ GetPtexIndex f t = Done (n, t') →
  _ptexIndices t' ≠ []
  ∧ t' = with_ptexIndices (_ptexIndices t') t
  ∧ (_ptexIndices t ≠ [] → t' = t)
  ∧ (GetNumPtexFaces t = Done (n, t') → GetNumPtexFaces t' = Done (n, t'))
  ∧ (GetPtexIndex f t = Done (n, t') → GetPtexIndex f t' = Done (n, t'))
  ∧ (∀ r, GetNumPtexFaces t' = Done r → r.2 = t')
  ∧ (∀ g r, GetPtexIndex g t' = Done r → r.2 = t').
Proof.
  intros Hrun.
  assert (Hinit : ∃ u, (if bool_decide (_ptexIndices t = []) then initializePtexIndices t
                        else mret t) = Done u
                       ∧ ((n ← back (_ptexIndices u); mret (n, u)) = Done (n, t')
                          ∨ (if bool_decide (f < Z.of_nat (length (_ptexIndices u)) - 1)
                             then n ← at_index (_ptexIndices u) f; mret (n, u)
                             else mret (-1, u)) = Done (n, t'))).
  { destruct Hrun as [Hrun | Hrun]; [unfold GetNumPtexFaces in Hrun
                                    | unfold GetPtexIndex in Hrun];
      bind_case_as Hrun Hu; eexists; (split; [reflexivity|]); auto. }
  destruct Hinit as (u & Hu & Hans).
  assert (Huu : u = t').
  { destruct Hans as [Hans | Hans].
    - bind_case Hans. inversion Hans. reflexivity.
    - case_bool_decide; [bind_case Hans|]; inversion Hans; reflexivity. }
  subst u. destruct (ptex_query_state t t' Hu) as (Hne & Heq & Hsame).
  assert (Hskip : (if bool_decide (_ptexIndices t' = []) then initializePtexIndices t'
                   else mret t') = Done t').
  { rewrite bool_decide_eq_false_2 by exact Hne. reflexivity. }
  split; [exact Hne|]. split; [exact Heq|]. split; [exact Hsame|].
  split; [|split; [|split]].
  - intros Hq. unfold GetNumPtexFaces in *. rewrite Hu in Hq. rewrite Hskip. exact Hq.
  - intros Hq. unfold GetPtexIndex in *. rewrite Hu in Hq. rewrite Hskip. exact Hq.
  - intros r Hq. unfold GetNumPtexFaces in Hq. rewrite Hskip, bind_Done in Hq.
    bind_case Hq. inversion Hq. reflexivity.
  - intros g r Hq. unfold GetPtexIndex in Hq. rewrite Hskip, bind_Done in Hq.
    case_bool_decide; [bind_case Hq|]; inversion Hq; reflexivity.
Qed.

End PtexQueries.

Section PtexLayout.
Context `{SdcTraits}.






End PtexLayout.

Section SelectorAlgebra.
Context `{SdcTraits}.

Lemma selector_eq (s1 s2 : SparseSelector) :
  (∀ g, g ∈ selectedFaces s1 ↔ g ∈ selectedFaces s2) → s1 = s2.
Proof.
  destruct s1 as [X], s2 as [Y]; simpl. intros Heq. f_equal. apply set_eq, Heq.
Qed.

(** X9: the selection only grows and does not depend on how the faces are
    visited: two lists with the same faces, in any order and with any
    repetitions, give the same selector, so any list of exactly the faces of
    the level gives the selection of the source's loop; a second pass over
    the level adds nothing. *)
Theorem selector_pass_order_independent (level : Level) (s : SparseSelector) :
  (∀ faces g, g ∈ selectedFaces s →
     g ∈ selectedFaces (foldl (selectorStep level) s faces))
  ∧ (∀ faces1 faces2, (∀ f, f ∈ faces1 ↔ f ∈ faces2) →
       foldl (selectorStep level) s faces1 = foldl (selectorStep level) s faces2)
  ∧ (∀ faces, (∀ f, f ∈ faces ↔ 0 ≤ f < getNumFaces level) →
       foldl (selectorStep level) s faces = catmarkFeatureAdaptiveSelector level s)
  ∧ catmarkFeatureAdaptiveSelector level (catmarkFeatureAdaptiveSelector level s)
    = catmarkFeatureAdaptiveSelector level s.
Proof.
  assert (Hperm : ∀ faces1 faces2, (∀ f, f ∈ faces1 ↔ f ∈ faces2) →
            foldl (selectorStep level) s faces1 = foldl (selectorStep level) s faces2).
  { intros faces1 faces2 Hsame. apply selector_eq. intros g.
    rewrite !elem_selector_pass. split.
    - intros [Hg | (f & Hf & Hsel)]; [auto|]. right. exists f. split; [apply Hsame, Hf | exact Hsel].
    - intros [Hg | (f & Hf & Hsel)]; [auto|]. right. exists f. split; [apply Hsame, Hf | exact Hsel]. }
  split; [|split; [exact Hperm|split]].
  - intros faces g Hg. apply elem_selector_pass. auto.
  - intros faces Hfaces. unfold catmarkFeatureAdaptiveSelector. apply Hperm.
    intros f. rewrite Hfaces, elem_of_seqZ. lia.
  - apply selector_eq. intros g. rewrite !elem_catmarkFeatureAdaptiveSelector. tauto.
Qed.

Lemma getVertexFaces_elem level (v g : Index) :
  g ∈ getVertexFaces level v → ∃ vtx, vtx ∈ vertices level ∧ g ∈ vertFaces vtx.
Proof.
  unfold getVertexFaces, lookupZ. case_bool_decide; [|intros Hg; inversion Hg].
  destruct (vertices level !! Z.to_nat v) as [vtx|] eqn:Hv; [|intros Hg; inversion Hg].
  simpl. intros Hg. exists vtx. split; [eapply list_elem_of_lookup_2, Hv | exact Hg].
Qed.

(** X10: on a level whose vertices list faces of the level only, the
    selector marks faces of the level only: whatever is selected after the
    pass was selected before or is a face index in range. *)
Theorem selector_selects_faces_of_level (level : Level) (s : SparseSelector) (g : Index) :
  vertexFacesInRange level = true →
  g ∈ selectedFaces (catmarkFeatureAdaptiveSelector level s) →
  g ∈ selectedFaces s ∨ 0 ≤ g < getNumFaces level.
Proof.
  intros Hrange Hg. apply elem_catmarkFeatureAdaptiveSelector in Hg
    as [Hg | (face & Hface & [[_ (v & _ & Hgv)] | (_ & -> & _)])]; auto.
  right. apply getVertexFaces_elem in Hgv as (vtx & Hvtx & Hgv).
  unfold vertexFacesInRange in Hrange. rewrite forallb_forall in Hrange.
  apply list_elem_of_In, Hrange in Hvtx. rewrite forallb_forall in Hvtx.
  apply list_elem_of_In, Hvtx in Hgv. apply bool_decide_eq_true_1 in Hgv. exact Hgv.
Qed.

(** X11: when the driver sees an empty selection.  The selection of a fresh
    selector over a level is empty exactly when every face of the level is
    a quad that does not meet the isolation condition, or a face that is not
    a quad and whose vertices list no face at all. *)
Theorem selection_empty_iff (level : Level) :
  isSelectionEmpty (catmarkFeatureAdaptiveSelector level newSelector) = true
  ↔ ∀ f, 0 ≤ f < getNumFaces level →
      (arraySize (getFaceVertices level f) = 4 ∧ quadSelectCondition level f = false)
      ∨ (arraySize (getFaceVertices level f) ≠ 4
         ∧ ∀ v, v ∈ getFaceVertices level f → getVertexFaces level v = []).
Proof.
  unfold isSelectionEmpty. rewrite bool_decide_eq_true. split.
  - intros Hempty f Hf.
    assert (Hnone : ∀ g, ¬ stepSelects level f g).
    { intros g Hsel.
      assert (Hg : g ∈ selectedFaces (catmarkFeatureAdaptiveSelector level newSelector)).
      { apply elem_catmarkFeatureAdaptiveSelector. right. exists f. auto. }
      rewrite Hempty in Hg. apply not_elem_of_empty in Hg. exact Hg. }
    destruct (decide (arraySize (getFaceVertices level f) = 4)) as [Hq|Hq].
    + left. split; [exact Hq|].
      destruct (quadSelectCondition level f) eqn:Hc; [|reflexivity].
      exfalso. apply (Hnone f). right. auto.
    + right. split; [exact Hq|]. intros v Hv.
      destruct (getVertexFaces level v) as [|g gs] eqn:Hgs; [reflexivity|].
      exfalso. apply (Hnone g). left. split; [exact Hq|].
      exists v. split; [exact Hv|]. rewrite Hgs. left.
  - intros Hall. apply set_eq. intros g. split; [|intros Hg; inversion Hg].
    intros Hg. exfalso.
    apply elem_catmarkFeatureAdaptiveSelector in Hg as [Hg | (f & Hf & Hsel)].
    + simpl in Hg. apply not_elem_of_empty in Hg. exact Hg.
    + destruct (Hall f Hf) as [[Hq Hc] | [Hq Hnone]];
        destruct Hsel as [[Hq' (v & Hv & Hgv)] | (Hq' & _ & Hc')]; try congruence.
      rewrite (Hnone v Hv) in Hgv. inversion Hgv.
Qed.

End SelectorAlgebra.

Section HierarchyLinks.
Context `{SdcTraits} `{VtrRefine}.

(** The uniform loop over [i .. i + k - 1] links the levels: slot [j - 1] of
    the refinements is bound to the scheme and to the levels [j - 1] and
    [j], and level [j] is its refine of level [j - 1]; the levels below [i]
    and the refinements below [i - 1] are not touched. *)
Lemma uniformLoop_links (maxLevel : Z) (fullTopology : bool) (k : nat) :
  ∀ (i : Z) (opts : RefineOptions) (t : TopologyRefiner) (calls : list RefineCall),
    1 ≤ i →
    Z.of_nat (length (_levels t)) = i + Z.of_nat k →
    Z.of_nat (length (_refinements t)) = i + Z.of_nat k - 1 →
    ∃ t' calls',
      uniformLoop (seqZ i (Z.of_nat k)) maxLevel fullTopology opts t calls = Done (t', calls')
      ∧ (∀ m, (m < Z.to_nat i)%nat → _levels t' !! m = _levels t !! m)
      ∧ (∀ m, (m < Z.to_nat (i - 1))%nat → _refinements t' !! m = _refinements t !! m)
      ∧ (∀ j, i ≤ j < i + Z.of_nat k →
           ∃ p r, _levels t' !! Z.to_nat (j - 1) = Some p
                  ∧ _refinements t' !! Z.to_nat (j - 1) = Some r
                  ∧ _scheme r = Some (_subdivType t, _subdivOptions t)
                  ∧ _parentChild r = Some (j - 1, j)
                  ∧ _levels t' !! Z.to_nat j
                    = Some (refine r p
                              (mkOptions (_sparse opts)
                                 (if fullTopology then false
                                  else bool_decide (j = maxLevel))))).
Proof.
  induction k as [|k IH]; intros i opts t calls Hi Hls Hrs.
  - exists t, calls. rewrite seqZ_nil by lia. simpl.
    split; [reflexivity|]. split; [auto|]. split; [auto|]. intros j Hj. lia.
  - rewrite seqZ_succ. cbn [uniformLoop].
    destruct (at_index_in_range (_refinements t) (i - 1)) as (r & Hr & ->); [lia|].
    rewrite bind_Done.
    destruct (at_index_in_range (_levels t) (i - 1)) as (p & Hp & ->); [lia|].
    rewrite bind_Done.
    destruct (at_index_in_range (_levels t) i) as (c & Hc & ->); [lia|].
    rewrite bind_Done.
    match goal with |- context [uniformLoop _ _ _ ?o ?u ?cs] =>
      set (t1 := u);
      assert (Hl1 : length (_levels t1) = length (_levels t))
        by (unfold t1; simpl; apply length_insert);
      assert (Hr1 : length (_refinements t1) = length (_refinements t))
        by (unfold t1; simpl; apply length_insert);
      destruct (IH (i + 1) o t1 cs ltac:(lia) ltac:(lia) ltac:(lia))
        as (t' & calls' & Hrun & Hlow & Hrlow & Hlinks)
    end.
    exists t', calls'. split; [exact Hrun|]. split; [|split].
    + intros m Hm. rewrite Hlow by lia. unfold t1; simpl.
      apply list_lookup_insert_ne. lia.
    + intros m Hm. rewrite Hrlow by lia. unfold t1; simpl.
      apply list_lookup_insert_ne. lia.
    + intros j Hj. destruct (decide (j = i)) as [->|Hne].
      * eexists p, _. split; [|split; [|split; [|split]]].
        -- rewrite Hlow by lia. unfold t1; simpl.
           rewrite list_lookup_insert_ne by lia. exact Hp.
        -- rewrite Hrlow by lia. unfold t1; simpl.
           apply list_lookup_insert_eq. apply lookup_lt_Some in Hr. exact Hr.
        -- reflexivity.
        -- reflexivity.
        -- rewrite Hlow by lia. unfold t1; simpl.
           apply list_lookup_insert_eq. apply lookup_lt_Some in Hc. exact Hc.
      * apply Hlinks. lia.
Qed.

(** X12: the shape of a uniformly refined hierarchy.  For each
    [j = 1 .. depth], slot [j - 1] of the refinements is bound to the scheme
    and options of the refiner and to the levels [j - 1] and [j], and level
    [j] is what its refine step makes of level [j - 1], with face topology
    only at the last level unless the caller asked for full topology;
    level 0 is the base level. *)
Theorem RefineUniform_links_levels (t : TopologyRefiner) (depth : Z)
    (fullTopology : bool) (base : Level) (rest : list Level) :
  _levels t = base :: rest →
  getNumVertices base > 0 →
  _subdivType t = TYPE_CATMARK →
  0 ≤ depth < INT_MAX →
  ∃ t' calls,
    RefineUniform depth fullTopology t = Done (t', calls)
    ∧ _levels t' !! 0%nat = Some base
    ∧ ∀ j, 1 ≤ j ≤ depth →
        ∃ p r, _levels t' !! Z.to_nat (j - 1) = Some p
               ∧ _refinements t' !! Z.to_nat (j - 1) = Some r
               ∧ _scheme r = Some (_subdivType t, _subdivOptions t)
               ∧ _parentChild r = Some (j - 1, j)
               ∧ _levels t' !! Z.to_nat j
                 = Some (refine r p
                           (mkOptions false
                              (if fullTopology then false
                               else bool_decide (j = depth)))).
Proof.
  intros Hl Hv Hs Hd. unfold RefineUniform.
  rewrite Hl, at_index_0_cons, bind_Done.
  rewrite (bool_decide_eq_true_2 _ Hv), (bool_decide_eq_true_2 _ Hs).
  unfold assert. rewrite !bind_Done.
  rewrite add32_succ by exact Hd.
  rewrite vresize_Done by lia. rewrite bind_Done.
  rewrite vresize_Done by lia. rewrite bind_Done.
  match goal with |- context [uniformLoop _ _ _ ?o ?u ?cs] =>
    destruct (uniformLoop_links depth fullTopology (Z.to_nat depth) 1 o u cs)
      as (t' & calls' & Hrun & Hlow & _ & Hlinks)
  end.
  - lia.
  - simpl. rewrite length_resize. lia.
  - simpl. rewrite length_resize. lia.
  - rewrite Z2Nat.id in Hrun, Hlinks by lia.
    exists t', calls'. split; [exact Hrun|]. split.
    + rewrite Hlow by lia. simpl. rewrite Hl.
      replace (Z.to_nat (depth + 1)) with (S (Z.to_nat depth)) by lia. reflexivity.
    + intros j Hj. apply Hlinks. lia.
Qed.

(** The adaptive loop over [i .. i + n - 1], when it finishes: every refine
    call it adds is for an index [j] from [i] on whose parent level, level
    [j - 1] of the result, has a non-empty selection; slot [j - 1] of the
    refinements is bound to the scheme, to the levels [j - 1] and [j] and
    to that selection, and level [j] is its refine of the parent. *)
Lemma adaptiveLoop_links (n : nat) :
  ∀ (i : Z) (opts : RefineOptions) (t : TopologyRefiner) (calls : list RefineCall)
    (t' : TopologyRefiner) (calls' : list RefineCall),
    1 ≤ i →
    i + Z.of_nat n ≤ INT_MAX →
    _sparse opts = true →
    adaptiveLoop (seqZ i (Z.of_nat n)) opts t calls = Done (t', calls') →
    (∀ m, (m < Z.to_nat i)%nat → (m < length (_levels t))%nat →
          _levels t' !! m = _levels t !! m)
    ∧ (∀ m, (m < Z.to_nat (i - 1))%nat → (m < length (_refinements t))%nat →
          _refinements t' !! m = _refinements t !! m)
    ∧ ∃ new, calls' = calls ++ new
        ∧ ∀ j o, (j, o) ∈ new →
            i ≤ j
            ∧ ∃ p, _levels t' !! Z.to_nat (j - 1) = Some p
                   ∧ featureSelection p ≠ ∅
                   ∧ _refinements t' !! Z.to_nat (j - 1)
                     = Some (boundRefinement t j (featureSelection p))
                   ∧ _levels t' !! Z.to_nat j
                     = Some (refine (boundRefinement t j (featureSelection p)) p
                               adaptiveOptions).
Proof.
  induction n as [|n IH]; intros i opts t calls t' calls' Hi Hmax Hsp Hrun.
  - rewrite seqZ_nil in Hrun by lia. inversion Hrun; subst.
    split; [auto|]. split; [auto|]. exists []. rewrite app_nil_r.
    split; [reflexivity|]. intros j o Hj. inversion Hj.
  - rewrite seqZ_succ in Hrun. cbn [adaptiveLoop] in Hrun. rewrite Hsp in Hrun.
    bind_case_as Hrun Hp. bind_case_as Hrun Hc. bind_case_as Hrun Hr.
    apply at_index_Done_inv in Hp as [_ Hp].
    apply at_index_Done_inv in Hc as [_ Hc].
    apply at_index_Done_inv in Hr as [_ Hr].
    pose proof (lookup_lt_Some _ _ _ Hc) as Hclen.
    pose proof (lookup_lt_Some _ _ _ Hr) as Hrlen.
    destruct (isSelectionEmpty _) eqn:Hsel; cbn [negb] in Hrun.
    + bind_case_as Hrun Hls. bind_case_as Hrun Hrs. inversion Hrun; subst.
      apply vresize_Done_inv in Hls as [_ ->].
      apply vresize_Done_inv in Hrs as [_ ->].
      cbn [_levels _refinements with_levels with_refinements with_maxLevel].
      rewrite add32_succ by (unfold INT_MAX in *; lia).
      split; [|split].
      * intros m Hm Hml. apply lookup_resize; lia.
      * intros m Hm Hml. rewrite lookup_resize by (rewrite ?length_insert; lia).
        apply list_lookup_insert_ne. lia.
      * exists []. rewrite app_nil_r. split; [reflexivity|]. intros j o Hj. inversion Hj.
    + apply bool_decide_eq_false in Hsel.
      match type of Hrun with adaptiveLoop _ ?o ?u ?cs = _ =>
        set (t1 := u) in Hrun;
        assert (Hl1 : length (_levels t1) = length (_levels t))
          by (unfold t1; simpl; apply length_insert);
        assert (Hr1 : length (_refinements t1) = length (_refinements t))
          by (unfold t1; simpl; apply length_insert);
        destruct (IH (i + 1) o t1 cs t' calls' ltac:(lia) ltac:(lia) eq_refl Hrun)
          as (Hlow & Hrlow & new & Hcalls & Hlinks)
      end.
      split; [|split].
      * intros m Hm Hml. rewrite Hlow by lia. unfold t1; simpl.
        apply list_lookup_insert_ne. lia.
      * intros m Hm Hml. rewrite Hrlow by lia. unfold t1; simpl.
        apply list_lookup_insert_ne. lia.
      * eexists (_ :: new). split; [rewrite Hcalls, <- app_assoc; reflexivity|].
        intros j o Hj. apply elem_of_cons in Hj as [Hj | Hj].
        -- inversion Hj; subst. split; [lia|]. eexists. split; [|split; [|split]].
           ++ rewrite Hlow by lia. unfold t1; simpl.
              rewrite list_lookup_insert_ne by lia. exact Hp.
           ++ exact Hsel.
           ++ rewrite Hrlow by lia. unfold t1; simpl.
              apply list_lookup_insert_eq. exact Hrlen.
           ++ rewrite Hlow by lia. unfold t1; simpl.
              apply list_lookup_insert_eq. exact Hclen.
        -- destruct (Hlinks j o Hj) as (Hij & p & Hpj & Hnej & Hrj & Hcj).
           split; [lia|]. exists p. auto.
Qed.

End HierarchyLinks.

Section AdaptiveHierarchy.
Context `{SdcTraits} `{VtrRefine}.

(** X13: the shape of an adaptively refined hierarchy.  For each
    [j = 1 .. maxLevel] of the result, the selection over level [j - 1] is
    not empty, slot [j - 1] of the refinements is bound to the scheme and
    options of the refiner, to the levels [j - 1] and [j], and holds exactly
    that selection as its marks, and level [j] is what its refine step makes
    of level [j - 1] with the adaptive options; level 0 is the base level. *)
Theorem RefineAdaptive_links_levels (t : TopologyRefiner) (depth : Z)
    (fullTopology : bool) (base : Level) (rest : list Level) :
  _levels t = base :: rest →
  getNumVertices base > 0 →
  _subdivType t = TYPE_CATMARK →
  0 ≤ depth < INT_MAX →
  ∃ t' calls,
    RefineAdaptive depth fullTopology t = Done (t', calls)
    ∧ _levels t' !! 0%nat = Some base
    ∧ ∀ j, 1 ≤ j ≤ _maxLevel t' →
        ∃ p, _levels t' !! Z.to_nat (j - 1) = Some p
             ∧ featureSelection p ≠ ∅
             ∧ _refinements t' !! Z.to_nat (j - 1)
               = Some (boundRefinement t j (featureSelection p))
             ∧ _levels t' !! Z.to_nat j
               = Some (refine (boundRefinement t j (featureSelection p)) p
                         adaptiveOptions).
Proof.
  intros Hl Hv Hs Hd.
  destruct (RefineAdaptive_run t depth fullTopology base rest Hl Hv Hs Hd)
    as (K & t' & HK & Hrun & _ & Hm & _ & _ & Hlev & _ & _).
  exists t', (adaptiveCalls K). split; [exact Hrun|]. split.
  { apply (Hlev 0). lia. }
  unfold RefineAdaptive in Hrun. do 5 bind_case Hrun.
  replace (seqZ 1 depth) with (seqZ 1 (Z.of_nat (Z.to_nat depth))) in Hrun
    by (rewrite Z2Nat.id by lia; reflexivity).
  apply adaptiveLoop_links in Hrun as (_ & _ & new & Hnew & Hlinks);
    [|lia|lia|reflexivity].
  simpl in Hnew. subst new.
  intros j Hj. destruct (Hlinks j adaptiveOptions) as (_ & p & Hlinks').
  - unfold adaptiveCalls. apply list_elem_of_fmap. exists j.
    split; [reflexivity|]. apply elem_of_seqZ. lia.
  - exists p. exact Hlinks'.
Qed.

(** X14: whether adaptive refinement to a depth of at least 1 leaves the
    base level alone.  It does, with [maxLevel = 0], the base as only level,
    no refinement and no refine call, exactly when the selection over the
    base level is empty; a base face that is not a quad and has a vertex
    listing some face forces at least one refinement. *)
Theorem RefineAdaptive_first_step (t : TopologyRefiner) (depth : Z)
    (fullTopology : bool) (base : Level) (rest : list Level) :
  _levels t = base :: rest →
  getNumVertices base > 0 →
  _subdivType t = TYPE_CATMARK →
  1 ≤ depth < INT_MAX →
  ∃ t' calls,
    RefineAdaptive depth fullTopology t = Done (t', calls)
    ∧ (_maxLevel t' = 0 ↔ featureSelection base = ∅)
    ∧ (_maxLevel t' = 0 →
         _levels t' = [base] ∧ _refinements t' = [] ∧ calls = [])
    ∧ (∀ f v g, 0 ≤ f < getNumFaces base →
         arraySize (getFaceVertices base f) ≠ 4 →
         v ∈ getFaceVertices base f → g ∈ getVertexFaces base v →
         1 ≤ _maxLevel t').
Proof.
  intros Hl Hv Hs Hd.
  destruct (RefineAdaptive_run t depth fullTopology base rest Hl Hv Hs)
    as (K & t' & HK & Hrun & _ & Hm & Hlen & Hrlen & Hlev & Hne & Hemp); [lia|].
  assert (Hiff : K = 0 ↔ featureSelection base = ∅).
  { split.
    - intros ->. apply Hemp. lia.
    - intros Hempty. destruct (decide (K = 0)) as [HK0|HK0]; [exact HK0|].
      exfalso. apply (Hne 0); [lia | exact Hempty]. }
  exists t', (adaptiveCalls K). split; [exact Hrun|]. rewrite Hm.
  split; [exact Hiff|]. split.
  - intros ->. specialize (Hlev 0 ltac:(lia)). simpl in Hlev.
    destruct (_levels t') as [|l0 [|l1 ls]]; simpl in *; try lia.
    destruct (_refinements t') as [|r0 rs]; simpl in *; try lia.
    inversion Hlev. auto.
  - intros f v g Hf Hq Hvf Hgv.
    destruct (decide (K = 0)) as [HK0|HK0]; [|lia].
    exfalso. apply Hiff in HK0.
    assert (Hg : g ∈ featureSelection base).
    { apply elem_catmarkFeatureAdaptiveSelector. right. exists f.
      split; [exact Hf|]. left. split; [exact Hq|]. exists v. auto. }
    rewrite HK0 in Hg. apply not_elem_of_empty in Hg. exact Hg.
Qed.

End AdaptiveHierarchy.

(** ** Totals over the hierarchy *)

Lemma Zsum_take_bounds (l : list Z) (m : nat) :
  Forall (λ x, 0 ≤ x) l → 0 ≤ Zsum (take m l) ≤ Zsum l.
Proof.
  intros Hl. rewrite <- (take_drop m l) at 3. rewrite Zsum_app.
  pose proof (Zsum_nonneg (take m l) (Forall_take _ _ _ Hl)).
  pose proof (Zsum_nonneg (drop m l) (Forall_drop _ _ _ Hl)). lia.
Qed.

(** The loop of the totals, when the sum fits an [int]. *)
Lemma levelsTotal_sum (count : Level → Z) (levels : list Level) :
  totalFits count levels → levelsTotal count levels = Zsum (count <$> levels).
Proof.
  intros [Hnn Hfit]. unfold levelsTotal.
  assert (Hnn' : Forall (λ x, 0 ≤ x) (count <$> levels)) by (apply Forall_fmap; exact Hnn).
  assert (Hpre : ∀ m, (m ≤ length levels)%nat →
            foldl (λ sum i, add32 sum (from_option count 0 (lookupZ levels i)))
                  0 (seqZ 0 (Z.of_nat m))
            = Zsum (count <$> take m levels)).
  { induction m as [|m IH]; intros Hm; [reflexivity|].
    destruct (lookup_lt_is_Some_2 levels m) as [l Hlm]; [lia|].
    rewrite seqZ_S, foldl_app, IH by lia. simpl.
    unfold lookupZ. rewrite bool_decide_eq_true_2 by lia.
    rewrite Z.add_0_l, Nat2Z.id, Hlm. simpl.
    rewrite (take_S_r _ _ _ Hlm), fmap_app, Zsum_app. simpl.
    unfold add32. rewrite Z.add_0_r. apply wrap32_small.
    pose proof (Zsum_take_bounds (count <$> levels) (S m) Hnn') as Hb.
    rewrite <- fmap_take, (take_S_r _ _ _ Hlm), fmap_app, Zsum_app in Hb.
    simpl in Hb. unfold INT_MAX in *. lia. }
  rewrite Hpre by lia. rewrite take_ge by lia. reflexivity.
Qed.

Lemma Zsum_sizes_nonneg {A : Type} (ls : list (list A)) : 0 ≤ Zsum (arraySize <$> ls).
Proof.
  apply Zsum_nonneg, Forall_fmap, Forall_forall. intros l _. unfold arraySize. simpl. lia.
Qed.

Section Totals.
Context `{VtrLevelCounts}.

(** X15: each of the five totals is the sum of the per-level count over the
    levels of the hierarchy, provided that sum fits an [int] (and, for the
    edge and face-varying counts, that no level reports a negative count);
    without levels every total is 0. *)
Theorem hierarchy_totals (t : TopologyRefiner) (channel : Z) :
  (Zsum (getNumVertices <$> _levels t) ≤ INT_MAX →
     GetNumVerticesTotal t = Zsum (getNumVertices <$> _levels t))
  ∧ (Zsum (getNumFaces <$> _levels t) ≤ INT_MAX →
     GetNumFacesTotal t = Zsum (getNumFaces <$> _levels t))
  ∧ (Zsum (getNumFaceVerticesTotal <$> _levels t) ≤ INT_MAX →
     GetNumFaceVerticesTotal t = Zsum (getNumFaceVerticesTotal <$> _levels t))
  ∧ (totalFits getNumEdges (_levels t) →
     GetNumEdgesTotal t = Zsum (getNumEdges <$> _levels t))
  ∧ (totalFits (λ l, getNumFVarValues l channel) (_levels t) →
     GetNumFVarValuesTotal channel t
     = Zsum ((λ l, getNumFVarValues l channel) <$> _levels t))
  ∧ (_levels t = [] →
     GetNumVerticesTotal t = 0 ∧ GetNumEdgesTotal t = 0 ∧ GetNumFacesTotal t = 0
     ∧ GetNumFaceVerticesTotal t = 0 ∧ GetNumFVarValuesTotal channel t = 0).
Proof.
  split; [|split; [|split; [|split; [|split]]]].
  - intros Hfit. apply levelsTotal_sum. split; [|exact Hfit].
    apply Forall_forall. intros l _. unfold getNumVertices. lia.
  - intros Hfit. apply levelsTotal_sum. split; [|exact Hfit].
    apply Forall_forall. intros l _. unfold getNumFaces. lia.
  - intros Hfit. apply levelsTotal_sum. split; [|exact Hfit].
    apply Forall_forall. intros l _. apply Zsum_sizes_nonneg.
  - apply levelsTotal_sum.
  - apply levelsTotal_sum.
  - unfold GetNumVerticesTotal, GetNumEdgesTotal, GetNumFacesTotal,
      GetNumFaceVerticesTotal, GetNumFVarValuesTotal.
    intros ->. repeat split.
Qed.

End Totals.

Section DepthZero.
Context `{SdcTraits} `{VtrRefine}.

(** X16: refining to depth 0 is [Unrefine] with the mode recorded.  On a
    refiner with a base level that has vertices and the Catmark scheme,
    however deep it was refined before, both drivers at depth 0 make no
    refine call and leave what [Unrefine] leaves, with [_maxLevel = 0] and
    the uniform flag set by [RefineUniform] and cleared by
    [RefineAdaptive]. *)
Theorem refine_to_depth_0_unrefines (t : TopologyRefiner) (fullTopology : bool)
    (base : Level) (rest : list Level) :
  _levels t = base :: rest →
  getNumVertices base > 0 →
  _subdivType t = TYPE_CATMARK →
  RefineUniform 0 fullTopology t
    = Done (with_maxLevel 0 (with_isUniform true (Unrefine t)), [])
  ∧ RefineAdaptive 0 fullTopology t
    = Done (with_maxLevel 0 (with_isUniform false (Unrefine t)), []).
Proof.
  intros Hl Hv Hs. unfold RefineUniform, RefineAdaptive.
  rewrite Hl, at_index_0_cons, !bind_Done.
  rewrite (assert_true_2 _ Hv), !bind_Done. rewrite (assert_true_2 _ Hs), !bind_Done.
  change (add32 0 1) with 1.
  rewrite !vresize_Done by lia. rewrite !bind_Done.
  rewrite !vresize_Done by lia. rewrite !bind_Done.
  rewrite seqZ_nil by lia. cbn [uniformLoop adaptiveLoop].
  rewrite Unrefine_eq.
  split; unfold mret, outcome_ret; do 2 f_equal; apply refiner_eq; simpl;
    rewrite ?Hl; try reflexivity;
    change (Z.to_nat 1) with 1%nat; simpl; rewrite resize_0, ?take_0; reflexivity.
Qed.

End DepthZero.

Section DriverCalls.
Context `{SdcTraits} `{VtrRefine}.

(** C4: on a refiner with a base level that has vertices and the Catmark
    scheme, [RefineUniform] to a depth that fits an [int] finishes with
    [depth + 1] levels, [depth] refinements, the uniform flag set and
    [maxLevel = depth]; it calls the refine step once for each
    [i = 1 .. depth], in that order, each time with [_sparse = false]: level
    [i] of the result is what the refine step of the refinement in slot
    [i - 1], bound to the scheme and to the levels [i - 1] and [i], makes
    of level [i - 1] with [_sparse = false], and these are the options the
    call is recorded with. *)
Theorem RefineUniform_postcondition (t : TopologyRefiner) (depth : Z)
    (fullTopology : bool) (base : Level) (rest : list Level) :
  _levels t = base :: rest →
  getNumVertices base > 0 →
  _subdivType t = TYPE_CATMARK →
  0 ≤ depth < INT_MAX →
  ∃ t' calls,
    RefineUniform depth fullTopology t = Done (t', calls)
    ∧ Z.of_nat (length (_levels t')) = depth + 1
    ∧ Z.of_nat (length (_refinements t')) = depth
    ∧ _isUniform t' = true
    ∧ _maxLevel t' = depth
    ∧ _levels t' !! 0%nat = Some base
    ∧ calls = uniformCalls depth fullTopology
    ∧ fst <$> calls = seqZ 1 depth
    ∧ Forall (λ c : RefineCall, _sparse c.2 = false) calls
    ∧ ∀ i, 1 ≤ i ≤ depth →
        ∃ p r o, _levels t' !! Z.to_nat (i - 1) = Some p
                 ∧ _refinements t' !! Z.to_nat (i - 1) = Some r
                 ∧ _scheme r = Some (_subdivType t, _subdivOptions t)
                 ∧ _parentChild r = Some (i - 1, i)
                 ∧ (i, o) ∈ calls
                 ∧ _sparse o = false
                 ∧ _faceTopologyOnly o
                   = (if fullTopology then false else bool_decide (i = depth))
                 ∧ _levels t' !! Z.to_nat i = Some (refine r p o).
Proof.
  intros Hl Hv Hs Hd. unfold RefineUniform.
  rewrite Hl, at_index_0_cons, bind_Done.
  rewrite (bool_decide_eq_true_2 _ Hv), (bool_decide_eq_true_2 _ Hs).
  unfold assert. rewrite !bind_Done.
  rewrite add32_succ by exact Hd.
  rewrite vresize_Done by lia. rewrite bind_Done.
  rewrite vresize_Done by lia. rewrite bind_Done.
  match goal with |- context [uniformLoop _ _ _ ?o ?u ?cs] =>
    destruct (uniformLoop_spec depth fullTopology (Z.to_nat depth) 1 o u cs)
      as (t' & Hrun & Hlen & Hrlen & Hu & Hm & Hbase);
    [lia | simpl; rewrite length_resize; lia | simpl; rewrite length_resize; lia |];
    destruct (uniformLoop_links depth fullTopology (Z.to_nat depth) 1 o u cs)
      as (t2 & calls2 & Hrun2 & _ & _ & Hlinks);
    [lia | simpl; rewrite length_resize; lia | simpl; rewrite length_resize; lia |]
  end.
  rewrite Hrun in Hrun2. inversion Hrun2; subst t2 calls2. clear Hrun2.
  rewrite Z2Nat.id in Hrun, Hlinks by lia. simpl in Hlen, Hrlen, Hu, Hm, Hbase, Hlinks.
  rewrite length_resize in Hlen. rewrite length_resize in Hrlen.
  exists t'. eexists. split; [exact Hrun|].
  split; [lia|]. split; [lia|]. split; [exact Hu|]. split; [exact Hm|].
  split.
  { rewrite Hbase, Hl. replace (Z.to_nat (depth + 1)) with (S (Z.to_nat depth)) by lia.
    reflexivity. }
  split; [reflexivity|]. split; [|split].
  - simpl. rewrite <- list_fmap_compose. apply list_fmap_id.
  - simpl. apply Forall_fmap, Forall_forall. intros j _. reflexivity.
  - intros i Hi. destruct (Hlinks i) as (p & r & Hp & Hr & Hsch & Hpc & Hchild); [lia|].
    exists p, r, (mkOptions false (if fullTopology then false else bool_decide (i = depth))).
    split; [exact Hp|]. split; [exact Hr|]. split; [exact Hsch|]. split; [exact Hpc|].
    split; [|split; [reflexivity|split; [reflexivity|exact Hchild]]].
    simpl. apply list_elem_of_fmap. exists i. split; [reflexivity|].
    apply elem_of_seqZ. lia.
Qed.

(** C5: [RefineAdaptive] runs the same, calls and result alike, for both
    values of [fullTopology]; every refine call of a run that finishes is
    recorded with [_sparse = true] and [_faceTopologyOnly = false]; and on a
    refiner with a base level that has vertices and the Catmark scheme the
    run does finish, and every level it built, level [i] for
    [i = 1 .. maxLevel], is what the refine step makes of level [i - 1] with
    exactly these options, [_sparse = true] and [_faceTopologyOnly = false],
    whatever [fullTopology] was. *)
Theorem RefineAdaptive_forces_full_topology (t : TopologyRefiner) (depth : Z)
    (fullTopology : bool) :
  RefineAdaptive depth fullTopology t = RefineAdaptive depth (negb fullTopology) t
  ∧ (∀ t' calls, RefineAdaptive depth fullTopology t = Done (t', calls) →
       Forall (λ c : RefineCall, c.2 = mkOptions true false) calls)
  ∧ (∀ base rest,
       _levels t = base :: rest →
       getNumVertices base > 0 →
       _subdivType t = TYPE_CATMARK →
       0 ≤ depth < INT_MAX →
       ∃ t' calls, RefineAdaptive depth fullTopology t = Done (t', calls)
                   ∧ RefineAdaptive depth (negb fullTopology) t = Done (t', calls)
                   ∧ fst <$> calls = seqZ 1 (_maxLevel t')
                   ∧ Z.of_nat (length (_levels t')) = _maxLevel t' + 1
                   ∧ ∀ i, 1 ≤ i ≤ _maxLevel t' →
                       ∃ p, _levels t' !! Z.to_nat (i - 1) = Some p
                            ∧ _refinements t' !! Z.to_nat (i - 1)
                              = Some (boundRefinement t i (featureSelection p))
                            ∧ (i, mkOptions true false) ∈ calls
                            ∧ _levels t' !! Z.to_nat i
                              = Some (refine (boundRefinement t i (featureSelection p)) p
                                        (mkOptions true false))).
Proof.
  assert (Hindep : RefineAdaptive depth fullTopology t
                   = RefineAdaptive depth (negb fullTopology) t).
  { unfold RefineAdaptive.
    apply bind_ext; intros l0. apply bind_ext; intros _. apply bind_ext; intros _.
    apply bind_ext; intros ls. apply bind_ext; intros rs.
    apply adaptiveLoop_overrides_faceTopologyOnly. }
  split; [exact Hindep|]. split.
  - intros t' calls Hrun. unfold RefineAdaptive in Hrun.
    do 5 bind_case Hrun.
    apply adaptiveLoop_calls in Hrun as (new & -> & Hnew); [exact Hnew | reflexivity].
  - intros base rest Hl Hv Hs Hd.
    destruct (RefineAdaptive_run t depth fullTopology base rest Hl Hv Hs Hd)
      as (K & t' & HK & Hrun & Hu & Hm & Hlen & _).
    exists t', (adaptiveCalls K). split; [exact Hrun|].
    split; [rewrite <- Hindep; exact Hrun|]. rewrite Hm.
    split; [unfold adaptiveCalls; rewrite <- list_fmap_compose; apply list_fmap_id|].
    split; [exact Hlen|].
    assert (Hin : ∀ i, 1 ≤ i ≤ K → (i, mkOptions true false) ∈ adaptiveCalls K).
    { intros i Hi. unfold adaptiveCalls. apply list_elem_of_fmap. exists i.
      split; [reflexivity|]. apply elem_of_seqZ. lia. }
    unfold RefineAdaptive in Hrun. do 5 bind_case Hrun.
    replace (seqZ 1 depth) with (seqZ 1 (Z.of_nat (Z.to_nat depth))) in Hrun
      by (rewrite Z2Nat.id by lia; reflexivity).
    apply adaptiveLoop_links in Hrun as (_ & _ & new & Hnew & Hlinks);
      [|lia|lia|reflexivity].
    simpl in Hnew. subst new.
    intros i Hi. destruct (Hlinks i adaptiveOptions (Hin i Hi)) as (_ & p & Hp & _ & Hr & Hc).
    exists p. split; [exact Hp|]. split; [exact Hr|]. split; [exact (Hin i Hi)|]. exact Hc.
Qed.

End DriverCalls.

(** ** The further properties on the sample meshes *)

(** X2 on the single quad asked for depth -1. *)
Lemma refinement_drivers_faults_witness :
  @RefineUniform sampleRefine (-1) false (sampleRefiner oneQuad) = Abort LengthError
  ∧ @RefineAdaptive sampleTraits sampleRefine (-1) false (sampleRefiner oneQuad)
    = Abort LengthError.
Proof.
  apply (proj2 (proj2
    (@refinement_drivers_faults sampleTraits sampleRefine (sampleRefiner oneQuad) (-1) false))
    oneQuad []); [reflexivity | reflexivity | reflexivity | lia].
Defined.

(** X4 on the single quad refined uniformly to depth 2. *)
Lemma Unrefine_after_refinement_witness :
  0 ≤ 2 < INT_MAX
  ∧ ∃ t' calls,
      @RefineUniform sampleRefine 2 false (sampleRefiner oneQuad) = Done (t', calls)
      ∧ Unrefine t'
        = with_maxLevel 2 (with_isUniform true (Unrefine (sampleRefiner oneQuad))).
Proof.
  assert (Hd : 0 ≤ 2 < INT_MAX) by (unfold INT_MAX; lia).
  split; [exact Hd|].
  assert (Hr : ∃ t' calls,
            @RefineUniform sampleRefine 2 false (sampleRefiner oneQuad) = Done (t', calls))
    by (vm_compute; eauto).
  destruct Hr as (t' & calls & Hrun). exists t', calls. split; [exact Hrun|].
  exact (proj1 (@Unrefine_after_refinement sampleTraits sampleRefine
                  (sampleRefiner oneQuad) 2 false t' calls Hd) Hrun).
Defined.

(** X5 on the same run: the Ptex answers after it are those before it. *)
Lemma ptex_queries_survive_refinement_witness :
  0 ≤ 2 < INT_MAX
  ∧ ∃ t' calls,
      @RefineUniform sampleRefine 2 false (sampleRefiner oneQuad) = Done (t', calls)
      ∧ answer (@GetNumPtexFaces sampleTraits t')
        = answer (@GetNumPtexFaces sampleTraits (sampleRefiner oneQuad)).
Proof.
  assert (Hd : 0 ≤ 2 < INT_MAX) by (unfold INT_MAX; lia).
  split; [exact Hd|].
  assert (Hr : ∃ t' calls,
            @RefineUniform sampleRefine 2 false (sampleRefiner oneQuad) = Done (t', calls))
    by (vm_compute; eauto).
  destruct Hr as (t' & calls & Hrun). exists t', calls. split; [exact Hrun|].
  exact (proj2 (proj2 (@ptex_queries_survive_refinement sampleTraits sampleRefine
                         (sampleRefiner oneQuad) 2 false t' calls 0 Hd (or_introl Hrun)))).
Defined.

(** X6 on the single quad: the second query repeats the first. *)
Lemma ptex_queries_settle_witness :
  ∃ t', @GetNumPtexFaces sampleTraits (sampleRefiner oneQuad) = Done (1, t')
        ∧ @GetNumPtexFaces sampleTraits t' = Done (1, t').
Proof.
  assert (Hr : ∃ t', @GetNumPtexFaces sampleTraits (sampleRefiner oneQuad) = Done (1, t'))
    by (vm_compute; eauto).
  destruct Hr as (t' & Hrun). exists t'. split; [exact Hrun|].
  destruct (@ptex_queries_settle sampleTraits (sampleRefiner oneQuad) t' 0 1
              (or_introl Hrun)) as (_ & _ & _ & Hagain & _).
  exact (Hagain Hrun).
Defined.



(** X10 on the pentagon and the quad: face 1 is selected and in range. *)
Lemma selector_selects_faces_of_level_witness :
  vertexFacesInRange pentaQuad = true
  ∧ 1 ∈ selectedFaces (@catmarkFeatureAdaptiveSelector sampleTraits pentaQuad newSelector)
  ∧ (1 ∈ selectedFaces newSelector ∨ 0 ≤ 1 < getNumFaces pentaQuad).
Proof.
  assert (Hsel : 1 ∈ selectedFaces
                    (@catmarkFeatureAdaptiveSelector sampleTraits pentaQuad newSelector))
    by (vm_compute; reflexivity).
  split; [reflexivity|]. split; [exact Hsel|].
  exact (@selector_selects_faces_of_level sampleTraits pentaQuad newSelector 1
           eq_refl Hsel).
Defined.

(** X12 on the single quad refined uniformly to depth 2. *)
Lemma RefineUniform_links_levels_witness :
  getNumVertices oneQuad > 0
  ∧ 0 ≤ 2 < INT_MAX
  ∧ ∃ t' calls,
      @RefineUniform sampleRefine 2 true (sampleRefiner oneQuad) = Done (t', calls)
      ∧ _levels t' !! 0%nat = Some oneQuad
      ∧ ∀ j, 1 ≤ j ≤ 2 →
          ∃ p r, _levels t' !! Z.to_nat (j - 1) = Some p
                 ∧ _refinements t' !! Z.to_nat (j - 1) = Some r
                 ∧ _scheme r = Some (TYPE_CATMARK, 0)
                 ∧ _parentChild r = Some (j - 1, j)
                 ∧ _levels t' !! Z.to_nat j
                   = Some (@refine sampleRefine r p
                             (mkOptions false (if true then false
                                               else bool_decide (j = 2)))).
Proof.
  assert (Hv : getNumVertices oneQuad > 0) by reflexivity.
  assert (Hd : 0 ≤ 2 < INT_MAX) by (unfold INT_MAX; lia).
  split; [exact Hv|]. split; [exact Hd|].
  exact (@RefineUniform_links_levels sampleRefine (sampleRefiner oneQuad) 2 true
           oneQuad [] eq_refl Hv eq_refl Hd).
Defined.

(** X13 on the pentagon and the quad with a refine step that answers with
    the same mesh: both levels up to depth 2 are built. *)
Lemma RefineAdaptive_links_levels_witness :
  getNumVertices pentaQuad > 0
  ∧ 0 ≤ 2 < INT_MAX
  ∧ ∃ t' calls,
      @RefineAdaptive sampleTraits pentaRefine 2 true (sampleRefiner pentaQuad)
        = Done (t', calls)
      ∧ _maxLevel t' = 2
      ∧ _levels t' !! 0%nat = Some pentaQuad
      ∧ ∃ p, _levels t' !! Z.to_nat (2 - 1) = Some p
             ∧ @featureSelection sampleTraits p ≠ ∅
             ∧ _refinements t' !! Z.to_nat (2 - 1)
               = Some (boundRefinement (sampleRefiner pentaQuad) 2
                         (@featureSelection sampleTraits p)).
Proof.
  assert (Hv : getNumVertices pentaQuad > 0) by reflexivity.
  assert (Hd : 0 ≤ 2 < INT_MAX) by (unfold INT_MAX; lia).
  split; [exact Hv|]. split; [exact Hd|].
  destruct (@RefineAdaptive_links_levels sampleTraits pentaRefine (sampleRefiner pentaQuad)
              2 true pentaQuad [] eq_refl Hv eq_refl Hd)
    as (t' & calls & Hrun & Hbase & Hlinks).
  assert (Hm : _maxLevel t' = 2).
  { assert (Hr : ∃ u c, @RefineAdaptive sampleTraits pentaRefine 2 true
                          (sampleRefiner pentaQuad) = Done (u, c) ∧ _maxLevel u = 2)
      by (vm_compute; eauto).
    destruct Hr as (u & c & Hu & Hmu). rewrite Hrun in Hu. inversion Hu. exact Hmu. }
  exists t', calls. split; [exact Hrun|]. split; [exact Hm|]. split; [exact Hbase|].
  destruct (Hlinks 2) as (p & Hp & Hne & Hr & _); [lia|].
  exists p. auto.
Defined.

(** X14 on the pentagon and the quad: the pentagon forces a refinement. *)
Lemma RefineAdaptive_first_step_witness :
  getNumVertices pentaQuad > 0
  ∧ 1 ≤ 3 < INT_MAX
  ∧ ∃ t' calls,
      @RefineAdaptive sampleTraits sampleRefine 3 true (sampleRefiner pentaQuad)
        = Done (t', calls)
      ∧ 1 ≤ _maxLevel t'.
Proof.
  assert (Hv : getNumVertices pentaQuad > 0) by reflexivity.
  assert (Hd : 1 ≤ 3 < INT_MAX) by (unfold INT_MAX; lia).
  split; [exact Hv|]. split; [exact Hd|].
  destruct (@RefineAdaptive_first_step sampleTraits sampleRefine (sampleRefiner pentaQuad)
              3 true pentaQuad [] eq_refl Hv eq_refl Hd)
    as (t' & calls & Hrun & _ & _ & Hnonquad).
  exists t', calls. split; [exact Hrun|].
  apply (Hnonquad 0 0 1).
  - unfold getNumFaces; simpl; lia.
  - vm_compute. discriminate.
  - vm_compute. apply list_elem_of_here.
  - vm_compute. apply list_elem_of_further, list_elem_of_here.
Defined.

(** X15 on the pentagon and the quad: 8 vertices, 2 faces, 9 face-vertices. *)
Lemma hierarchy_totals_witness :
  GetNumVerticesTotal (sampleRefiner pentaQuad) = 8
  ∧ GetNumFacesTotal (sampleRefiner pentaQuad) = 2
  ∧ GetNumFaceVerticesTotal (sampleRefiner pentaQuad) = 9
  ∧ @GetNumEdgesTotal sampleCounts (sampleRefiner pentaQuad) = 0.
Proof.
  destruct (@hierarchy_totals sampleCounts (sampleRefiner pentaQuad) 0)
    as (Hv & Hf & Hfv & He & _).
  split; [|split; [|split]].
  - rewrite Hv; [reflexivity | vm_compute; discriminate].
  - rewrite Hf; [reflexivity | vm_compute; discriminate].
  - rewrite Hfv; [reflexivity | vm_compute; discriminate].
  - rewrite He; [reflexivity|]. split; [|vm_compute; discriminate].
    constructor; [simpl; lia | constructor].
Defined.

(** X16 on a hierarchy of three levels: depth 0 cuts it back to the base. *)
Lemma refine_to_depth_0_unrefines_witness :
  getNumVertices oneQuad > 0
  ∧ @RefineUniform sampleRefine 0 false
      (mkRefiner TYPE_CATMARK 0 false 2 [oneQuad; oneQuad; oneQuad]
                 [emptyRefinement; emptyRefinement] [])
    = Done (mkRefiner TYPE_CATMARK 0 true 0 [oneQuad] [] [], []).
Proof.
  assert (Hv : getNumVertices oneQuad > 0) by reflexivity.
  split; [exact Hv|].
  exact (proj1 (@refine_to_depth_0_unrefines sampleTraits sampleRefine
                  (mkRefiner TYPE_CATMARK 0 false 2 [oneQuad; oneQuad; oneQuad]
                             [emptyRefinement; emptyRefinement] [])
                  false oneQuad [oneQuad; oneQuad] eq_refl Hv eq_refl)).
Defined.

(** C4 on the single quad, refined uniformly to depth 2: three levels, and
    level 1 is the refine of the base with [_sparse = false]. *)
Lemma RefineUniform_postcondition_witness :
  _levels (sampleRefiner oneQuad) = [oneQuad]
  ∧ getNumVertices oneQuad > 0
  ∧ 0 ≤ 2 < INT_MAX
  ∧ ∃ t' calls,
      @RefineUniform sampleRefine 2 false (sampleRefiner oneQuad) = Done (t', calls)
      ∧ Z.of_nat (length (_levels t')) = 2 + 1
      ∧ Z.of_nat (length (_refinements t')) = 2
      ∧ _isUniform t' = true
      ∧ _maxLevel t' = 2
      ∧ _levels t' !! 0%nat = Some oneQuad
      ∧ calls = uniformCalls 2 false
      ∧ fst <$> calls = seqZ 1 2
      ∧ Forall (λ c : RefineCall, _sparse c.2 = false) calls
      ∧ ∀ i, 1 ≤ i ≤ 2 →
          ∃ p r o, _levels t' !! Z.to_nat (i - 1) = Some p
                   ∧ _refinements t' !! Z.to_nat (i - 1) = Some r
                   ∧ _scheme r = Some (TYPE_CATMARK, 0)
                   ∧ _parentChild r = Some (i - 1, i)
                   ∧ (i, o) ∈ calls
                   ∧ _sparse o = false
                   ∧ _faceTopologyOnly o = (if false then false else bool_decide (i = 2))
                   ∧ _levels t' !! Z.to_nat i = Some (@refine sampleRefine r p o).
Proof.
  assert (Hv : getNumVertices oneQuad > 0) by reflexivity.
  assert (Hd : 0 ≤ 2 < INT_MAX) by (unfold INT_MAX; lia).
  split; [reflexivity|]. split; [exact Hv|]. split; [exact Hd|].
  exact (@RefineUniform_postcondition sampleRefine (sampleRefiner oneQuad) 2 false
           oneQuad [] eq_refl Hv eq_refl Hd).
Defined.

(** C5 on the pentagon and the quad, refined adaptively to depth 3 and
    asked for face topology only at the last level: the run is the one for
    full topology, and level 1 is the refine of the base with
    [_sparse = true] and [_faceTopologyOnly = false]. *)
Lemma RefineAdaptive_forces_full_topology_witness :
  getNumVertices pentaQuad > 0
  ∧ 0 ≤ 3 < INT_MAX
  ∧ @RefineAdaptive sampleTraits sampleRefine 3 false (sampleRefiner pentaQuad)
    = @RefineAdaptive sampleTraits sampleRefine 3 true (sampleRefiner pentaQuad)
  ∧ ∃ t' calls,
      @RefineAdaptive sampleTraits sampleRefine 3 false (sampleRefiner pentaQuad)
        = Done (t', calls)
      ∧ calls = [(1, mkOptions true false)]
      ∧ _levels t' !! 1%nat
        = Some (@refine sampleRefine
                  (boundRefinement (sampleRefiner pentaQuad) 1
                     (@featureSelection sampleTraits pentaQuad))
                  pentaQuad (mkOptions true false)).
Proof.
  assert (Hv : getNumVertices pentaQuad > 0) by reflexivity.
  assert (Hd : 0 ≤ 3 < INT_MAX) by (unfold INT_MAX; lia).
  split; [exact Hv|]. split; [exact Hd|].
  destruct (@RefineAdaptive_forces_full_topology sampleTraits sampleRefine
              (sampleRefiner pentaQuad) 3 false) as (Hindep & _ & Hrun).
  split; [exact Hindep|].
  destruct (Hrun pentaQuad [] eq_refl Hv eq_refl Hd)
    as (t' & calls & Ht' & _ & _ & _ & Hlinks).
  assert (Hr : ∃ u, @RefineAdaptive sampleTraits sampleRefine 3 false
                      (sampleRefiner pentaQuad) = Done (u, [(1, mkOptions true false)])
                    ∧ _maxLevel u = 1 ∧ _levels u !! 0%nat = Some pentaQuad)
    by (vm_compute; eauto).
  destruct Hr as (u & Hu & Hmu & Hbase). rewrite Ht' in Hu. inversion Hu; subst u calls.
  exists t', [(1, mkOptions true false)]. split; [exact Ht'|]. split; [reflexivity|].
  destruct (Hlinks 1) as (p & Hp & _ & _ & Hc); [lia|].
  change (Z.to_nat (1 - 1)) with 0%nat in Hp. rewrite Hbase in Hp. inversion Hp; subst p.
  exact Hc.
Defined.

(** C7 on a refiner whose cache was filled from the single quad: after
    [Clear] the two queries still answer from it. *)
Lemma Clear_keeps_ptex_cache_witness :
  last (_ptexIndices (with_ptexIndices [0; 1] (sampleRefiner oneQuad))) = Some 1
  ∧ @GetNumPtexFaces sampleTraits (Clear (with_ptexIndices [0; 1] (sampleRefiner oneQuad)))
    = Done (1, Clear (with_ptexIndices [0; 1] (sampleRefiner oneQuad)))
  ∧ @GetPtexIndex sampleTraits 0 (Clear (with_ptexIndices [0; 1] (sampleRefiner oneQuad)))
    = Done (0, Clear (with_ptexIndices [0; 1] (sampleRefiner oneQuad))).
Proof.
  destruct (@Clear_keeps_ptex_cache sampleTraits
              (with_ptexIndices [0; 1] (sampleRefiner oneQuad)))
    as (_ & _ & _ & Hnum & Hidx).
  split; [reflexivity|]. split.
  - apply (Hnum 1). reflexivity.
  - apply (Hidx 0 0); [simpl; lia | reflexivity].
Defined.
